(** * Web3 Voting API: the nonce / signature voting protocol

    A shallow embedding of [src/main.py] (the FastAPI handlers
    [create_nonce], [create_project] and [cast_vote]) over a small model of
    the MongoDB document store the handlers talk to, and the properties of
    the protocol proved over it.

    Documents are Python dicts and are modelled as finite maps from field
    names to values; a collection is the list of its documents in insertion
    order; a handler is a program over the atomic store operations, so that
    the same definition is run either to completion or interleaved with
    another request. *)

From stdpp Require Import gmap strings list fin_maps pretty.
From Stdlib Require Import ZArith Ascii.

Open Scope Z_scope.
Open Scope nat_scope.

(** ** Python strings *)

(** [str.lower], on the ASCII range (wallet addresses and the schema class
    names are ASCII; bytes outside [A-Z] are left alone). *)
Definition lower_char (c : ascii) : ascii :=
  let n := nat_of_ascii c in
  if (65 <=? n) && (n <=? 90) then ascii_of_nat (n + 32) else c.

Fixpoint lower (s : string) : string :=
  match s with
  | EmptyString => EmptyString
  | String c r => String (lower_char c) (lower r)
  end.

(** [s[:n]] *)
Definition str_prefix (n : nat) (s : string) : string := String.substring 0 n s.

(** Truth value of a [str]: only the empty string is falsy. *)
Definition str_truthy (s : string) : bool :=
  match s with EmptyString => false | String _ _ => true end.

(** ** Documents *)

Inductive value : Type :=
| VNull
| VBool (b : bool)
| VStr (s : string)
| VOid (n : nat)
| VTime (t : Z).

#[global] Instance value_eq_dec : EqDecision value.
Proof. solve_decision. Defined.

Abbreviation doc := (gmap string value).

(** [d.get(k)] *)
Definition doc_get (k : string) (d : doc) : value := default VNull (d !! k).

(** Truth value of the result of [find_one]: [None] and the empty dict are
    falsy. *)
Definition doc_truthy (o : option doc) : bool :=
  match o with
  | None => false
  | Some d => negb (bool_decide (d = ∅))
  end.

(** ** Exceptions *)

Inductive exn : Type :=
| HTTPException (status_code : Z) (detail : string)
| DuplicateKeyError.

#[global] Instance exn_eq_dec : EqDecision exn.
Proof. solve_decision. Defined.

(** ** schemas.py *)

Inductive model_cls : Type := ProjectSchema | VoteSchema | NonceSchema.

Definition class_name (c : model_cls) : string :=
  match c with
  | ProjectSchema => "Project"
  | VoteSchema => "Vote"
  | NonceSchema => "Nonce"
  end.

(** [collection_name]: [model_cls.__name__.lower()] *)
Definition collection_name (c : model_cls) : string := lower (class_name c).

(** ** The document store *)

Module Mongo.

(** Modelled from the spec: [db] comes from the [database] module, which is
    absent from the sources; spec section 6 describes it as a document
    store with per-collection insert, find-one and find-many by filter,
    update by filter, and a uniqueness constraint usable on the
    ([project_id], [address]) pair of votes. The store holds the
    collections by name, each in insertion order, the source of fresh
    [_id]s, and whether that constraint is in force; [main.py] itself
    declares no index, the flag stands for what the storage layer may have
    been set up with. *)
Record store : Type := Store {
  collections : gmap string (list doc);
  next_oid : nat;
  unique_vote_pair : bool
}.

Definition empty (uniq : bool) : store := Store ∅ 0 uniq.

(** [db[coll]], as the list of its documents *)
Definition docs (s : store) (coll : string) : list doc :=
  default [] (collections s !! coll).

Definition set_docs (coll : string) (l : list doc) (s : store) : store :=
  Store (<[coll := l]> (collections s)) (next_oid s) (unique_vote_pair s).

(** An equality filter [{k1: v1, ...}] selects the documents that carry
    every listed field with the listed value. *)
Definition matches (flt d : doc) : bool := bool_decide (flt ⊆ d).

(** [{"$set": upd}] applied to [d] *)
Definition apply_set (upd d : doc) : doc := upd ∪ d.

Definition find_one (coll : string) (flt : doc) (s : store) : option doc :=
  find (matches flt) (docs s coll).

Definition find_many (coll : string) (flt : doc) (s : store) : list doc :=
  List.filter (matches flt) (docs s coll).

Definition update_many (coll : string) (flt upd : doc) (s : store) : store :=
  set_docs coll
    (map (fun d => if matches flt d then apply_set upd d else d) (docs s coll)) s.

Fixpoint set_first (flt upd : doc) (l : list doc) : list doc :=
  match l with
  | [] => []
  | d :: r => if matches flt d then apply_set upd d :: r
              else d :: set_first flt upd r
  end.

Definition update_one (coll : string) (flt upd : doc) (s : store) : store :=
  set_docs coll (set_first flt upd (docs s coll)) s.

(** Two documents collide on the unique index when they agree on both
    indexed fields. *)
Definition same_pair (d d' : doc) : bool :=
  bool_decide (d !! "project_id" = d' !! "project_id"
               ∧ d !! "address" = d' !! "address").

Definition violates_index (coll : string) (d : doc) (s : store) : bool :=
  unique_vote_pair s && bool_decide (coll = "vote")
  && existsb (same_pair d) (docs s coll).

(** The document receives a fresh [_id] and goes to the end of the
    collection. *)
Definition add_doc (coll : string) (d : doc) (s : store) : store :=
  Store (<[coll := docs s coll ++ [<["_id" := VOid (next_oid s)]> d]]> (collections s))
        (S (next_oid s)) (unique_vote_pair s).

(** [insert_one]: the id of the inserted document and the store with it,
    or [None] when the unique index refuses the document. *)
Definition insert_one (coll : string) (d : doc) (s : store)
  : option (value * store) :=
  if violates_index coll (<["_id" := VOid (next_oid s)]> d) s then None
  else Some (VOid (next_oid s), add_doc coll d s).

End Mongo.

Export Mongo.

(** ** Handler programs *)

(** A handler is a tree of atomic store operations: each node names one
    operation and continues with its answer. *)
Inductive prog (A : Type) : Type :=
| Ret (a : A)
| Raise (e : exn)
| FindOne (coll : string) (flt : doc) (k : option doc → prog A)
| UpdateMany (coll : string) (flt upd : doc) (k : unit → prog A)
| UpdateOne (coll : string) (flt upd : doc) (k : unit → prog A)
| InsertOne (coll : string) (d : doc) (k : value → prog A).

Arguments Ret {A} a.
Arguments Raise {A} e.
Arguments FindOne {A} coll flt k.
Arguments UpdateMany {A} coll flt upd k.
Arguments UpdateOne {A} coll flt upd k.
Arguments InsertOne {A} coll d k.

Fixpoint prog_bind {A B : Type} (p : prog A) (f : A → prog B) : prog B :=
  match p with
  | Ret a => f a
  | Raise e => Raise e
  | FindOne c flt k => FindOne c flt (fun o => prog_bind (k o) f)
  | UpdateMany c flt upd k => UpdateMany c flt upd (fun u => prog_bind (k u) f)
  | UpdateOne c flt upd k => UpdateOne c flt upd (fun u => prog_bind (k u) f)
  | InsertOne c d k => InsertOne c d (fun v => prog_bind (k v) f)
  end.

#[global] Instance prog_ret : MRet prog := @Ret.
#[global] Instance prog_mbind : MBind prog := fun A B f p => prog_bind p f.

Definition db_find_one (coll : string) (flt : doc) : prog (option doc) :=
  FindOne coll flt Ret.
Definition db_update_many (coll : string) (flt upd : doc) : prog unit :=
  UpdateMany coll flt upd Ret.
Definition db_update_one (coll : string) (flt upd : doc) : prog unit :=
  UpdateOne coll flt upd Ret.
Definition db_insert_one (coll : string) (d : doc) : prog value :=
  InsertOne coll d Ret.

(** What one run of a handler leaves behind: its result, the store at the
    end, and the store as it stood after each write, oldest first. *)
Record outcome (A : Type) : Type := Outcome {
  result : exn + A;
  final : store;
  writes : list store
}.

Arguments Outcome {A} result final writes.
Arguments result {A} o.
Arguments final {A} o.
Arguments writes {A} o.

Definition logged {A : Type} (s : store) (o : outcome A) : outcome A :=
  Outcome (result o) (final o) (s :: writes o).

(** A handler run to completion, nothing else touching the store. *)
Fixpoint exec {A : Type} (p : prog A) (s : store) : outcome A :=
  match p with
  | Ret a => Outcome (inr a) s []
  | Raise e => Outcome (inl e) s []
  | FindOne c flt k => exec (k (find_one c flt s)) s
  | UpdateMany c flt upd k =>
      let s' := update_many c flt upd s in logged s' (exec (k tt) s')
  | UpdateOne c flt upd k =>
      let s' := update_one c flt upd s in logged s' (exec (k tt) s')
  | InsertOne c d k =>
      match insert_one c d s with
      | Some (oid, s') => logged s' (exec (k oid) s')
      | None => Outcome (inl DuplicateKeyError) s []
      end
  end.

(** One atomic store operation of a handler. *)
Definition step {A : Type} (p : prog A) (s : store) : prog A * store :=
  match p with
  | Ret a => (Ret a, s)
  | Raise e => (Raise e, s)
  | FindOne c flt k => (k (find_one c flt s), s)
  | UpdateMany c flt upd k => (k tt, update_many c flt upd s)
  | UpdateOne c flt upd k => (k tt, update_one c flt upd s)
  | InsertOne c d k =>
      match insert_one c d s with
      | Some (oid, s') => (k oid, s')
      | None => (Raise DuplicateKeyError, s)
      end
  end.

(** Two requests in flight: the schedule says whose operation goes next
    ([true]: the first request). *)
Fixpoint interleave {A : Type} (sched : list bool) (p q : prog A) (s : store)
  : prog A * prog A * store :=
  match sched with
  | [] => (p, q, s)
  | true :: r => let '(p', s') := step p s in interleave r p' q s'
  | false :: r => let '(q', s') := step q s in interleave r p q' s'
  end.

Definition finished {A : Type} (p : prog A) : option (exn + A) :=
  match p with
  | Ret a => Some (inr a)
  | Raise e => Some (inl e)
  | _ => None
  end.

(** ** The environment of a request *)

(** [secrets.token_hex(n)]: [n] bytes of operating-system entropy, each
    written as two lowercase hexadecimal digits. *)
Definition hex_digit (n : N) : ascii :=
  match String.get (N.to_nat n) "0123456789abcdef" with
  | Some c => c
  | None => "0"%char
  end.

Definition hex_byte (b : Byte.byte) : string :=
  let n := Byte.to_N b in
  String (hex_digit (n / 16)) (String (hex_digit (n mod 16)) EmptyString).

Definition token_hex (nbytes : nat) (entropy : list Byte.byte) : string :=
  String.concat "" (map hex_byte (take nbytes entropy)).

Definition generate_nonce (entropy : list Byte.byte) : string :=
  token_hex 16 entropy.

(** [eth_account.messages.encode_defunct(text=...)]: the text wrapped as a
    personal-sign message. *)
Inductive SignableMessage : Type := encode_defunct (text : string).

(** ** Request bodies *)

Record ProjectCreate : Type := {
  name : string;
  description : option string;
  website : option string;
  image : option string;
  chain : option string
}.

Record VoteCreate : Type := {
  project_id : string;
  address : string;
  signature : string;
  nonce : string
}.

Definition opt_str (o : option string) : value := from_option VStr VNull o.

(** [payload.model_dump()] of a project *)
Definition model_dump (p : ProjectCreate) : doc :=
  {[ "name" := VStr (name p);
     "description" := opt_str (description p);
     "website" := opt_str (website p);
     "image" := opt_str (image p);
     "chain" := opt_str (chain p) ]}.

(** Modelled from the spec: [create_document] belongs to the [database]
    module, which is absent from the sources; spec section 6 gives the
    persistence collaborator a per-collection insert, and that is what it is
    taken to be: the data goes into the named collection and the id the
    store assigned comes back. *)
Definition create_document (coll : string) (data : doc) : prog value :=
  db_insert_one coll data.

(** ** The handlers of main.py *)

Section Handlers.

(** [Account.recover_message(message, signature=...)]: the address that
    signed, or the text of the exception the library raised. *)
Variable recover_message : SignableMessage → string → string + string.

(** The canonical text a voter signs. *)
Definition vote_message (payload : VoteCreate) : string :=
  "VOTE:" +:+ project_id payload +:+ ":" +:+ nonce payload.

(** [POST /api/nonce] *)
Definition create_nonce (now : Z) (entropy : list Byte.byte) (address : string)
  : prog doc :=
  if negb (str_truthy address) then
    Raise (HTTPException 400 "Address required")
  else
    let addr := lower address in
    _ ← db_update_many (collection_name NonceSchema)
          {[ "address" := VStr addr; "used" := VBool false ]}
          {[ "used" := VBool true; "updated_at" := VTime now ]};
    let nonce := generate_nonce entropy in
    _ ← create_document (collection_name NonceSchema)
          {[ "address" := VStr addr; "nonce" := VStr nonce;
             "used" := VBool false ]};
    mret {[ "address" := VStr addr; "nonce" := VStr nonce ]}.

(** [POST /api/projects] *)
Definition create_project (payload : ProjectCreate) : prog doc :=
  let data := model_dump payload in
  project_id ← create_document (collection_name ProjectSchema) data;
  mret {[ "id" := project_id; "message" := VStr "Project created" ]}.

(** The [try] block of [cast_vote]: an [HTTPException] raised inside it is
    raised again as it is, any other exception becomes a 400 carrying the
    first 60 characters of its text. *)
Definition verify_signature (addr : string) (payload : VoteCreate)
  : prog unit :=
  let message := encode_defunct (vote_message payload) in
  match recover_message message (signature payload) with
  | inr recovered =>
      if bool_decide (lower recovered ≠ addr) then
        Raise (HTTPException 401 "Signature verification failed")
      else mret tt
  | inl e =>
      Raise (HTTPException 400 ("Invalid signature: " +:+ str_prefix 60 e))
  end.

(** [POST /api/vote] *)
Definition cast_vote (now : Z) (payload : VoteCreate) : prog doc :=
  let addr := lower (address payload) in
  nonce_doc ← db_find_one (collection_name NonceSchema)
                {[ "address" := VStr addr; "nonce" := VStr (nonce payload);
                   "used" := VBool false ]};
  if negb (doc_truthy nonce_doc) then
    Raise (HTTPException 400 "Invalid or used nonce")
  else
    _ ← verify_signature addr payload;
    existing ← db_find_one (collection_name VoteSchema)
                 {[ "project_id" := VStr (project_id payload);
                    "address" := VStr addr ]};
    if doc_truthy existing then
      mret {[ "status" := VStr "ok"; "message" := VStr "Vote already recorded" ]}
    else
      _ ← create_document (collection_name VoteSchema)
            {[ "project_id" := VStr (project_id payload);
               "address" := VStr addr;
               "signature" := VStr (signature payload);
               "nonce" := VStr (nonce payload) ]};
      _ ← db_update_one (collection_name NonceSchema)
            {[ "_id" := from_option (doc_get "_id") VNull nonce_doc ]}
            {[ "used" := VBool true; "updated_at" := VTime now ]};
      mret {[ "status" := VStr "ok"; "message" := VStr "Vote recorded" ]}.

(** A request as it reaches the service, with what its handler draws from
    the clock and from the entropy source. *)
Inductive request : Type :=
| PostNonce (now : Z) (entropy : list Byte.byte) (address : string)
| PostProject (payload : ProjectCreate)
| PostVote (now : Z) (payload : VoteCreate).

Definition handler (r : request) : prog doc :=
  match r with
  | PostNonce now entropy a => create_nonce now entropy a
  | PostProject p => create_project p
  | PostVote now p => cast_vote now p
  end.

(** Requests served one after the other. *)
Definition serve (s : store) (r : request) : store := final (exec (handler r) s).
Definition serve_all (rs : list request) (s : store) : store :=
  foldl serve s rs.

(** [n] calls of the issue-nonce operation for one address, in a row;
    the k-th call draws the k-th clock reading and entropy. *)
Definition issue_all (draws : list (Z * list Byte.byte)) (a : string)
  : list request :=
  map (fun d => PostNonce d.1 d.2 a) draws.

(** A correctly signed vote: recovery succeeds and yields the claimed
    address, letter case aside. *)
Definition signature_ok (payload : VoteCreate) : bool :=
  match recover_message (encode_defunct (vote_message payload))
                        (signature payload) with
  | inr recovered => bool_decide (lower recovered = lower (address payload))
  | inl _ => false
  end.

End Handlers.

(** ** Vocabulary of the properties *)

(** The nonce records of an address, by state. *)
Definition nonces_of (s : store) (addr : string) : list doc :=
  find_many "nonce" {[ "address" := VStr addr ]} s.
Definition unused_nonces (s : store) (addr : string) : list doc :=
  find_many "nonce" {[ "address" := VStr addr; "used" := VBool false ]} s.
Definition used_nonces (s : store) (addr : string) : list doc :=
  find_many "nonce" {[ "address" := VStr addr; "used" := VBool true ]} s.

(** The submitted nonce is on record for the address and not used. *)
Definition nonce_usable (s : store) (addr n : string) : bool :=
  existsb (matches {[ "address" := VStr addr; "nonce" := VStr n;
                      "used" := VBool false ]}) (docs s "nonce").

(** The vote records of a (project, address) pair. *)
Definition votes_for (s : store) (pid addr : string) : list doc :=
  find_many "vote" {[ "project_id" := VStr pid; "address" := VStr addr ]} s.
Definition has_voted (s : store) (pid addr : string) : bool :=
  existsb (matches {[ "project_id" := VStr pid; "address" := VStr addr ]})
          (docs s "vote").

(** The record with the given [_id] has been marked used. *)
Definition consumed (s : store) (oid : value) : Prop :=
  ∃ d, d ∈ docs s "nonce" ∧ d !! "_id" = Some oid
       ∧ d !! "used" = Some (VBool true).

(** The request hands the address a nonce of the given value. *)
Definition reissues (addr n : string) (r : request) : bool :=
  match r with
  | PostNonce _ entropy a =>
      bool_decide (lower a = addr ∧ generate_nonce entropy = n)
  | _ => false
  end.

(** What [update_many] of [create_nonce] does to one record. *)
Definition invalidate (now : Z) (addr : string) (d : doc) : doc :=
  if matches {[ "address" := VStr addr; "used" := VBool false ]} d
  then apply_set {[ "used" := VBool true; "updated_at" := VTime now ]} d
  else d.

(** A nonce record is only ever changed by being marked used. *)
Definition touched (d d' : doc) : Prop :=
  d' = d
  ∨ ∃ now, d' = apply_set {[ "used" := VBool true;
                             "updated_at" := VTime now ]} d.

(** What holds of the nonce collection in every store the service reaches:
    the [_id]s are below the next one to be handed out, no two records share
    an [_id], and no address has two unused records. *)
Definition ids_below (n : nat) (l : list doc) : Prop :=
  ∀ d, d ∈ l → ∃ k, d !! "_id" = Some (VOid k) ∧ k < n.

Definition ids_unique (l : list doc) : Prop :=
  ∀ i j d d', l !! i = Some d → l !! j = Some d' →
              d !! "_id" = d' !! "_id" → i = j.

Definition one_unused (l : list doc) : Prop :=
  ∀ i j d d' addr,
    l !! i = Some d → l !! j = Some d' →
    matches {[ "address" := VStr addr; "used" := VBool false ]} d = true →
    matches {[ "address" := VStr addr; "used" := VBool false ]} d' = true →
    i = j.

Definition nonces_ok (s : store) : Prop :=
  ids_below (next_oid s) (docs s "nonce")
  ∧ ids_unique (docs s "nonce")
  ∧ one_unused (docs s "nonce").


(** ** A test double for the signature library *)

Module Demo.

(** A signature names its signer and the text signed. *)
Definition sign (signer text : string) : string := signer +:+ "/" +:+ text.

(** Two wallets are known; any other well-formed signature recovers to a
    third address, and a signature that is not hexadecimal raises. *)
Definition recover (m : SignableMessage) (sig : string) : string + string :=
  let 'encode_defunct text := m in
  if String.eqb sig (sign "0xAbC" text) then inr "0xABc"
  else if String.eqb sig (sign "0xDeF" text) then inr "0xDEf"
  else if String.prefix "0x" sig then inr "0x000"
  else inl "Non-hexadecimal digit found".

Definition entropy1 : list Byte.byte := repeat Byte.x1a 16.
Definition entropy2 : list Byte.byte := repeat Byte.x2b 16.
Definition n1 : string := generate_nonce entropy1.
Definition n2 : string := generate_nonce entropy2.

Definition ballot (pid a signer n : string) : VoteCreate :=
  {| project_id := pid; address := a;
     signature := sign signer ("VOTE:" +:+ pid +:+ ":" +:+ n); nonce := n |}.

(** One nonce issued to the first wallet on an empty store. *)
Definition issued (uniq : bool) : store :=
  serve recover (Mongo.empty uniq) (PostNonce 5 entropy1 "0xABC").

(** The first wallet's vote for [proj1]; the same wallet voting again
    under another spelling of its address and with a new nonce; a vote in
    the first wallet's name signed by the second; a vote whose signature
    is not hexadecimal. *)
Definition vote1 : VoteCreate := ballot "proj1" "0xAbC" "0xAbC" n1.
Definition vote2 : VoteCreate := ballot "proj1" "0xABC" "0xAbC" n2.
Definition forged : VoteCreate := ballot "proj1" "0xAbC" "0xDeF" n1.
Definition garbled : VoteCreate :=
  {| project_id := "proj1"; address := "0xAbC"; signature := "zz";
     nonce := n1 |}.

(** The store after the first vote, and after a second nonce was issued
    on top of it. *)
Definition voted : store := serve recover (issued false) (PostVote 7 vote1).
Definition reissued : store :=
  serve recover voted (PostNonce 8 entropy2 "0xabc").

(** The same vote submitted twice at once: both requests look up the
    nonce and the vote before either of them writes. *)
Definition race : list bool :=
  [true; true; false; false; true; true; false; false].
Definition raced (uniq : bool) : prog doc * prog doc * store :=
  interleave race (cast_vote recover 7 vote1) (cast_vote recover 8 vote1)
             (issued uniq).

End Demo.

(** ** The read-only endpoints *)

(** Modelled from the spec: [get_documents] belongs to the absent
    [database] module; spec section 6 gives the persistence collaborator a
    find-many-by-filter, and that is what it is taken to be: the documents
    of the collection that the filter selects, in insertion order, the
    empty filter selecting all of them. *)
Definition get_documents (coll : string) (flt : doc) (s : store) : list doc :=
  find_many coll flt s.

(** What the listing endpoints answer with: stored values and the integer
    they count. *)
Inductive jvalue : Type :=
| Stored (v : value)
| Count (n : nat).

#[global] Instance jvalue_eq_dec : EqDecision jvalue.
Proof. solve_decision. Defined.

(** [dict.pop(key)] on a dict without the key *)
Inductive lookup_error : Type := KeyError (key : string).

#[global] Instance value_countable : Countable value.
Proof.
  refine (inj_countable'
            (λ v, match v with
                  | VNull => inl ()
                  | VBool b => inr (inl b)
                  | VStr s => inr (inr (inl s))
                  | VOid n => inr (inr (inr (inl n)))
                  | VTime t => inr (inr (inr (inr t)))
                  end)
            (λ x, match x with
                  | inl () => VNull
                  | inr (inl b) => VBool b
                  | inr (inr (inl s)) => VStr s
                  | inr (inr (inr (inl n))) => VOid n
                  | inr (inr (inr (inr t))) => VTime t
                  end) _).
  by intros [].
Defined.

(** The loop of [list_projects] over the votes: [counts[pid] =
    counts.get(pid, 0) + 1] with [pid = v.get("project_id")]. *)
Definition tally_vote (counts : gmap value nat) (v : doc) : gmap value nat :=
  let pid := doc_get "project_id" v in
  <[pid := default 0 (counts !! pid) + 1]> counts.

Definition tally (votes : list doc) : gmap value nat :=
  foldl tally_vote ∅ votes.

(** [p["votes"] = counts.get(p["id"], 0)] *)
Definition with_votes (counts : gmap value nat) (p : gmap string jvalue)
  : gmap string jvalue :=
  <["votes" := Count (match p !! "id" with
                      | Some (Stored k) => default 0 (counts !! k)
                      | _ => 0
                      end)]> p.

Section Listing.

(** [str(...)] of a stored value, as [list_projects] applies it to the
    [_id] of a project. *)
Variable py_str : value → string.

(** [p["id"] = str(p.pop("_id"))] *)
Definition relabel (p : doc) : lookup_error + gmap string jvalue :=
  match p !! "_id" with
  | None => inl (KeyError "_id")
  | Some oid =>
      inr (<["id" := Stored (VStr (py_str oid))]> (Stored <$> delete "_id" p))
  end.

(** The first loop of [list_projects]; it stops at the first project
    without an [_id]. *)
Fixpoint relabel_all (ps : list doc)
  : lookup_error + list (gmap string jvalue) :=
  match ps with
  | [] => inr []
  | p :: r =>
      match relabel p with
      | inl e => inl e
      | inr p' =>
          match relabel_all r with
          | inl e => inl e
          | inr r' => inr (p' :: r')
          end
      end
  end.

(** [GET /api/projects] *)
Definition list_projects (s : store)
  : lookup_error + list (gmap string jvalue) :=
  match relabel_all (get_documents (collection_name ProjectSchema) ∅ s) with
  | inl e => inl e
  | inr projects =>
      let votes := get_documents (collection_name VoteSchema) ∅ s in
      let counts := tally votes in
      inr (map (with_votes counts) projects)
  end.

End Listing.

(** [GET /api/projects/{project_id}/votes] *)
Definition project_votes (project_id : string) (s : store)
  : gmap string jvalue :=
  let votes := get_documents (collection_name VoteSchema)
                 {[ "project_id" := VStr project_id ]} s in
  {[ "project_id" := Stored (VStr project_id);
     "votes" := Count (length votes) ]}.

(** The number [project_votes] reports. *)
Definition vote_count (s : store) (pid : string) : nat :=
  length (get_documents "vote" {[ "project_id" := VStr pid ]} s).

(** ** Vocabulary of the further properties *)

(** The digits [secrets.token_hex] writes with. *)
Definition hex_alphabet : list ascii :=
  String.list_ascii_of_string "0123456789abcdef".

(** The value of a hexadecimal digit, and of two of them. *)
Definition unhex_digit (c : ascii) : N :=
  match list_find (λ x, x = c) hex_alphabet with
  | Some (i, _) => N.of_nat i
  | None => 0
  end.

Definition unhex_byte (c1 c2 : ascii) : N := 16 * unhex_digit c1 + unhex_digit c2.

(** A nonce record later on: same [_id], address and nonce value, and
    [used] either as it was or [true]. *)
Definition aged (d d' : doc) : Prop :=
  d' !! "_id" = d !! "_id" ∧ d' !! "address" = d !! "address"
  ∧ d' !! "nonce" = d !! "nonce"
  ∧ (d' !! "used" = d !! "used" ∨ d' !! "used" = Some (VBool true)).

(** Every vote record has a used nonce record of its address and nonce
    value. *)
Definition backed (s : store) : Prop :=
  ∀ v, v ∈ docs s "vote" →
       ∃ d, d ∈ docs s "nonce" ∧ d !! "address" = v !! "address"
            ∧ d !! "nonce" = v !! "nonce" ∧ d !! "used" = Some (VBool true).

(** The fields a nonce record and a vote record are stored with. *)
Definition nonce_shape (d : doc) : Prop :=
  ∃ a n b, d !! "address" = Some (VStr a) ∧ lower a = a
           ∧ d !! "nonce" = Some (VStr n) ∧ d !! "used" = Some (VBool b).

Definition vote_shape (v : doc) : Prop :=
  ∃ pid a sg n, v !! "project_id" = Some (VStr pid)
                ∧ v !! "address" = Some (VStr a) ∧ lower a = a
                ∧ v !! "signature" = Some (VStr sg)
                ∧ v !! "nonce" = Some (VStr n).

(** In every collection the [_id]s are below the next one to be handed
    out and pairwise distinct. *)
Definition ids_ok (s : store) : Prop :=
  ∀ c, ids_below (next_oid s) (docs s c) ∧ ids_unique (docs s c).

(** The votes of a project come from pairwise distinct addresses. *)
Definition voters_distinct (s : store) : Prop :=
  ∀ pid, NoDup (map (doc_get "address")
                    (get_documents "vote" {[ "project_id" := VStr pid ]} s)).

(** ** Sample data for the listing endpoints *)

Module Sample.

(** A rendering of stored values as text; an [_id] reads [id0], [id1], ... *)
Definition py_str (v : value) : string :=
  match v with
  | VOid n => "id" +:+ pretty n
  | VStr s => s
  | VBool true => "True"
  | VBool false => "False"
  | VNull => "None"
  | VTime t => pretty t
  end.

Definition dao : ProjectCreate :=
  {| name := "dao"; description := Some "a dao"; website := None;
     image := None; chain := Some "Ethereum" |}.

(** A project, then a nonce for the first wallet and its vote for the
    project. *)
Definition requests : list request :=
  [PostProject dao; PostNonce 5 Demo.entropy1 "0xABC";
   PostVote 7 (Demo.ballot "id0" "0xAbC" "0xAbC" Demo.n1)].

Definition listed : store :=
  serve_all Demo.recover requests (Mongo.empty false).

(** The nonce record and the vote record of the first wallet. *)
Definition nonce0 : doc :=
  {[ "_id" := VOid 0; "address" := VStr "0xabc"; "nonce" := VStr Demo.n1;
     "used" := VBool false ]}.

Definition vote0 : doc :=
  {[ "_id" := VOid 1; "project_id" := VStr "proj1";
     "address" := VStr "0xabc";
     "signature" := VStr (Demo.sign "0xAbC" ("VOTE:proj1:" +:+ Demo.n1));
     "nonce" := VStr Demo.n1 ]}.

End Sample.

(** * Properties *)

(** ** Filters and updates *)

Lemma matches_spec (flt d : doc) :
  matches flt d = true ↔ ∀ k v, flt !! k = Some v → d !! k = Some v.
Proof. unfold matches. rewrite bool_decide_eq_true. apply map_subseteq_spec. Qed.

Lemma matches_1 (k : string) (v : value) (d : doc) :
  matches {[ k := v ]} d = true ↔ d !! k = Some v.
Proof.
  rewrite matches_spec. split.
  - intros H. apply H, lookup_singleton_eq.
  - intros H k' v' [-> ->]%lookup_singleton_Some. exact H.
Qed.

Lemma matches_2 (k1 k2 : string) (v1 v2 : value) (d : doc) :
  k1 ≠ k2 →
  matches {[ k1 := v1; k2 := v2 ]} d = true
  ↔ d !! k1 = Some v1 ∧ d !! k2 = Some v2.
Proof.
  intros Hne. rewrite matches_spec. split.
  - intros H. split; apply H.
    + apply lookup_insert_eq.
    + rewrite lookup_insert_ne by done. apply lookup_singleton_eq.
  - intros [H1 H2] k v. rewrite lookup_insert_Some, lookup_singleton_Some.
    intros [[<- <-]|[_ [<- <-]]]; done.
Qed.

Lemma matches_3 (k1 k2 k3 : string) (v1 v2 v3 : value) (d : doc) :
  k1 ≠ k2 → k1 ≠ k3 → k2 ≠ k3 →
  matches {[ k1 := v1; k2 := v2; k3 := v3 ]} d = true
  ↔ d !! k1 = Some v1 ∧ d !! k2 = Some v2 ∧ d !! k3 = Some v3.
Proof.
  intros H12 H13 H23. rewrite matches_spec. split.
  - intros H. repeat split; apply H.
    + apply lookup_insert_eq.
    + rewrite lookup_insert_ne by done. apply lookup_insert_eq.
    + rewrite !lookup_insert_ne by done. apply lookup_singleton_eq.
  - intros (H1 & H2 & H3) k v.
    rewrite !lookup_insert_Some, lookup_singleton_Some.
    intros [[<- <-]|[_ [[<- <-]|[_ [<- <-]]]]]; done.
Qed.

(** A document selected by a filter that names a field is not the empty
    dict, so [if not nonce_doc] and [if existing] only test for [None]. *)
Lemma doc_truthy_matched (flt d : doc) (k : string) (v : value) :
  flt !! k = Some v → matches flt d = true → doc_truthy (Some d) = true.
Proof.
  intros Hk Hm. cbn. apply negb_true_iff, bool_decide_eq_false.
  intros ->. rewrite matches_spec in Hm. apply Hm in Hk.
  by rewrite lookup_empty in Hk.
Qed.

Lemma set_used_lookup (now : Z) (d : doc) :
  apply_set {[ "used" := VBool true; "updated_at" := VTime now ]} d !! "used"
  = Some (VBool true).
Proof. unfold apply_set. apply lookup_union_Some_l, lookup_insert_eq. Qed.

Lemma set_used_other (now : Z) (d : doc) (k : string) :
  k ≠ "used" → k ≠ "updated_at" →
  apply_set {[ "used" := VBool true; "updated_at" := VTime now ]} d !! k = d !! k.
Proof.
  intros H1 H2. unfold apply_set. apply lookup_union_r.
  rewrite lookup_insert_ne by done. by apply lookup_singleton_ne.
Qed.

(** ** Collections as lists *)

Lemma find_existsb {A : Type} (f : A → bool) (l : list A) :
  find f l = None ↔ existsb f l = false.
Proof.
  induction l as [|x l IH]; cbn; [done|].
  destruct (f x); cbn; [split; discriminate | exact IH].
Qed.

Lemma find_is_Some {A : Type} (f : A → bool) (l : list A) :
  existsb f l = true → ∃ x, find f l = Some x.
Proof.
  intros H. destruct (find f l) eqn:E; [eauto|].
  apply find_existsb in E. congruence.
Qed.

(** [find] answers the first element the predicate accepts. *)
Lemma find_first {A : Type} (f : A → bool) (l : list A) (x : A) :
  find f l = Some x →
  ∃ i, l !! i = Some x ∧ f x = true ∧ ∀ j y, j < i → l !! j = Some y → f y = false.
Proof.
  induction l as [|a l IH]; cbn; [discriminate|].
  destruct (f a) eqn:Fa.
  - intros [= ->]. exists 0. repeat split; [done|]. intros j y Hj. lia.
  - intros (i & Hi & Hx & Hlt)%IH. exists (S i). repeat split; [done..|].
    intros [|j] y Hj; cbn; [by intros [= <-]|]. apply Hlt. lia.
Qed.

Lemma filter_nil_existsb {A : Type} (f : A → bool) (l : list A) :
  List.filter f l = [] ↔ existsb f l = false.
Proof.
  induction l as [|x l IH]; cbn; [done|].
  destruct (f x); cbn; [split; discriminate | exact IH].
Qed.

Lemma existsb_elem_of {A : Type} (f : A → bool) (l : list A) :
  existsb f l = true ↔ ∃ x, x ∈ l ∧ f x = true.
Proof.
  rewrite existsb_exists. split; intros (x & H1 & H2); exists x;
    split; try done; by apply list_elem_of_In.
Qed.

(** ** The store operations, collection by collection *)

Lemma docs_set_docs_eq (c : string) (l : list doc) (s : store) :
  docs (set_docs c l s) c = l.
Proof. unfold docs, set_docs; cbn. by rewrite lookup_insert_eq. Qed.

Lemma docs_set_docs_ne (c c' : string) (l : list doc) (s : store) :
  c ≠ c' → docs (set_docs c l s) c' = docs s c'.
Proof. intros H. unfold docs, set_docs; cbn. by rewrite lookup_insert_ne. Qed.

Lemma docs_add_doc_eq (c : string) (d : doc) (s : store) :
  docs (add_doc c d s) c = docs s c ++ [<["_id" := VOid (next_oid s)]> d].
Proof. unfold docs at 1, add_doc; cbn. by rewrite lookup_insert_eq. Qed.

Lemma docs_add_doc_ne (c c' : string) (d : doc) (s : store) :
  c ≠ c' → docs (add_doc c d s) c' = docs s c'.
Proof. intros H. unfold docs at 1, add_doc; cbn. by rewrite lookup_insert_ne. Qed.

Lemma insert_one_elsewhere (c : string) (d : doc) (s : store) :
  c ≠ "vote" → insert_one c d s = Some (VOid (next_oid s), add_doc c d s).
Proof.
  intros H. unfold insert_one, violates_index.
  rewrite (bool_decide_eq_false_2 _ H), andb_false_r. reflexivity.
Qed.

(** The insert that [cast_vote] makes after its own look-up found nothing
    cannot collide on the unique index. *)
Lemma insert_one_vote (pid addr : string) (d : doc) (s : store) :
  d !! "project_id" = Some (VStr pid) → d !! "address" = Some (VStr addr) →
  has_voted s pid addr = false →
  insert_one "vote" d s = Some (VOid (next_oid s), add_doc "vote" d s).
Proof.
  intros Hp Ha Hv. unfold insert_one, violates_index.
  replace (existsb _ (docs s "vote")) with false; [by rewrite andb_false_r|].
  symmetry. apply not_true_is_false. intros (x & Hx & Hs)%existsb_elem_of.
  unfold same_pair in Hs. apply bool_decide_eq_true in Hs as [H1 H2].
  rewrite lookup_insert_ne in H1, H2 by done.
  enough (has_voted s pid addr = true) by congruence.
  apply existsb_elem_of. exists x. split; [done|].
  apply matches_2; [done|]. split; congruence.
Qed.

(** ** The handlers, run to completion *)

Ltac run_handler :=
  cbn [negb exec prog_bind mbind prog_mbind mret prog_ret db_find_one
       db_update_many db_update_one db_insert_one create_document logged
       result final writes from_option];
  change (collection_name NonceSchema) with "nonce" in *;
  change (collection_name VoteSchema) with "vote" in *;
  change (collection_name ProjectSchema) with "project" in *.

Section Runs.

Variable recover_message : SignableMessage → string → string + string.

Lemma exec_create_nonce (now : Z) (entropy : list Byte.byte) (a : string)
      (s : store) :
  exec (create_nonce now entropy a) s =
  if str_truthy a then
    let s1 := update_many "nonce"
                {[ "address" := VStr (lower a); "used" := VBool false ]}
                {[ "used" := VBool true; "updated_at" := VTime now ]} s in
    let s2 := add_doc "nonce"
                {[ "address" := VStr (lower a);
                   "nonce" := VStr (generate_nonce entropy);
                   "used" := VBool false ]} s1 in
    Outcome (inr {[ "address" := VStr (lower a);
                    "nonce" := VStr (generate_nonce entropy) ]}) s2 [s1; s2]
  else Outcome (inl (HTTPException 400 "Address required")) s [].
Proof.
  unfold create_nonce. destruct (str_truthy a); run_handler; [|reflexivity].
  by rewrite insert_one_elsewhere.
Qed.

Lemma exec_create_project (p : ProjectCreate) (s : store) :
  exec (create_project p) s =
  let s1 := add_doc "project" (model_dump p) s in
  Outcome (inr {[ "id" := VOid (next_oid s);
                  "message" := VStr "Project created" ]}) s1 [s1].
Proof.
  unfold create_project. run_handler. by rewrite insert_one_elsewhere.
Qed.

Lemma exec_cast_vote (now : Z) (p : VoteCreate) (s : store) :
  exec (cast_vote recover_message now p) s =
  let addr := lower (address p) in
  match find_one "nonce" {[ "address" := VStr addr; "nonce" := VStr (nonce p);
                            "used" := VBool false ]} s with
  | None => Outcome (inl (HTTPException 400 "Invalid or used nonce")) s []
  | Some nonce_doc =>
      match recover_message (encode_defunct (vote_message p)) (signature p) with
      | inl e =>
          Outcome (inl (HTTPException 400
                          ("Invalid signature: " +:+ str_prefix 60 e))) s []
      | inr recovered =>
          if bool_decide (lower recovered ≠ addr) then
            Outcome (inl (HTTPException 401 "Signature verification failed")) s []
          else if has_voted s (project_id p) addr then
            Outcome (inr {[ "status" := VStr "ok";
                            "message" := VStr "Vote already recorded" ]}) s []
          else
            let s1 := add_doc "vote"
                        {[ "project_id" := VStr (project_id p);
                           "address" := VStr addr;
                           "signature" := VStr (signature p);
                           "nonce" := VStr (nonce p) ]} s in
            let s2 := update_one "nonce"
                        {[ "_id" := doc_get "_id" nonce_doc ]}
                        {[ "used" := VBool true; "updated_at" := VTime now ]} s1 in
            Outcome (inr {[ "status" := VStr "ok";
                            "message" := VStr "Vote recorded" ]}) s2 [s1; s2]
      end
  end.
Proof.
  unfold cast_vote. run_handler.
  destruct (find_one "nonce" _ s) as [nonce_doc|] eqn:Hn; [|reflexivity].
  apply find_some in Hn as [_ Hn].
  rewrite (doc_truthy_matched _ _ "address" _ (lookup_insert_eq _ _ _) Hn).
  unfold verify_signature. run_handler.
  destruct (recover_message _ _) as [e|recovered]; [reflexivity|].
  destruct (bool_decide _); run_handler; [reflexivity|].
  unfold has_voted.
  destruct (find_one "vote" _ s) as [existing|] eqn:Hv.
  - pose proof Hv as Hv'. apply find_some in Hv as [_ Hv].
    rewrite (doc_truthy_matched _ _ "project_id" _ (lookup_insert_eq _ _ _) Hv).
    destruct (existsb _ _) eqn:E; [reflexivity|].
    apply find_existsb in E. unfold find_one in Hv'. congruence.
  - cbn [doc_truthy]. unfold find_one in Hv. apply find_existsb in Hv.
    rewrite Hv. run_handler.
    rewrite (insert_one_vote (project_id p) (lower (address p)));
      [reflexivity| | |done].
    + apply lookup_insert_eq.
    + rewrite lookup_insert_ne by done. apply lookup_insert_eq.
Qed.

End Runs.

Lemma nonce_usable_spec (s : store) (addr n : string) :
  nonce_usable s addr n = true
  ↔ ∃ d, d ∈ docs s "nonce" ∧ d !! "address" = Some (VStr addr)
         ∧ d !! "nonce" = Some (VStr n) ∧ d !! "used" = Some (VBool false).
Proof.
  unfold nonce_usable. rewrite existsb_elem_of.
  split; intros (d & Hd & H); exists d; (split; [done|]);
    by apply matches_3 in H.
Qed.

Lemma nonce_usable_find (s : store) (addr n : string) :
  nonce_usable s addr n = true
  ↔ ∃ d, find_one "nonce" {[ "address" := VStr addr; "nonce" := VStr n;
                            "used" := VBool false ]} s = Some d.
Proof.
  unfold nonce_usable, find_one. split.
  - apply find_is_Some.
  - intros [d Hd]. destruct (existsb _ _) eqn:E; [done|].
    apply find_existsb in E. congruence.
Qed.

Lemma has_voted_spec (s : store) (pid addr : string) :
  has_voted s pid addr = true
  ↔ ∃ d, d ∈ docs s "vote" ∧ d !! "project_id" = Some (VStr pid)
         ∧ d !! "address" = Some (VStr addr).
Proof.
  unfold has_voted. rewrite existsb_elem_of.
  split; intros (d & Hd & H); exists d; (split; [done|]);
    by apply matches_2 in H.
Qed.

Lemma has_voted_votes_for (s : store) (pid addr : string) :
  has_voted s pid addr = false ↔ votes_for s pid addr = [].
Proof. unfold has_voted, votes_for, find_many. by rewrite filter_nil_existsb. Qed.

(** ** The protocol *)

Section Protocol.

Variable recover_message : SignableMessage → string → string + string.

Lemma signature_ok_recovered (p : VoteCreate) :
  signature_ok recover_message p = true →
  ∃ recovered,
    recover_message (encode_defunct (vote_message p)) (signature p)
    = inr recovered
    ∧ bool_decide (lower recovered ≠ lower (address p)) = false.
Proof.
  unfold signature_ok.
  destruct (recover_message _ _) as [e|recovered]; [discriminate|].
  intros H%bool_decide_eq_true. exists recovered. split; [done|].
  apply bool_decide_eq_false. intros Hne. by apply Hne.
Qed.

Lemma duplicate_vote_run (now : Z) (p : VoteCreate) (s : store) :
  nonce_usable s (lower (address p)) (nonce p) = true →
  signature_ok recover_message p = true →
  has_voted s (project_id p) (lower (address p)) = true →
  exec (cast_vote recover_message now p) s
  = Outcome (inr {[ "status" := VStr "ok";
                    "message" := VStr "Vote already recorded" ]}) s [].
Proof.
  intros Hn Hs Hv. rewrite exec_cast_vote. cbn zeta.
  apply nonce_usable_find in Hn as [d ->].
  apply signature_ok_recovered in Hs as (recovered & -> & ->).
  by rewrite Hv.
Qed.

(** C5. A correctly signed vote with a usable nonce, for a pair that has
    a vote on record already, is acknowledged with "Vote already
    recorded" and writes nothing: the store at the end is the store at
    the start, so neither a nonce record nor a vote record has changed and
    the submitted nonce is still unused. *)
Theorem duplicate_vote_leaves_nonce (now : Z) (p : VoteCreate) (s : store) :
  nonce_usable s (lower (address p)) (nonce p) = true →
  signature_ok recover_message p = true →
  has_voted s (project_id p) (lower (address p)) = true →
  let o := exec (cast_vote recover_message now p) s in
  result o = inr {[ "status" := VStr "ok";
                    "message" := VStr "Vote already recorded" ]}
  ∧ final o = s ∧ writes o = []
  ∧ docs (final o) "nonce" = docs s "nonce"
  ∧ docs (final o) "vote" = docs s "vote"
  ∧ nonce_usable (final o) (lower (address p)) (nonce p) = true.
Proof.
  intros Hn Hs Hv o. subst o.
  rewrite (duplicate_vote_run now p s Hn Hs Hv).
  cbn [result final writes]. by repeat split.
Qed.

(** C7. Whenever [cast_vote] raises, the store at the end is the store at
    the start and nothing was written on the way; what it raises is the
    nonce rejection, the signature mismatch or the malformed-signature
    error, and past the nonce check the nonce that was looked up is still
    unused afterwards. *)
Theorem rejection_writes_nothing (now : Z) (p : VoteCreate) (s : store)
        (e : exn) :
  result (exec (cast_vote recover_message now p) s) = inl e →
  final (exec (cast_vote recover_message now p) s) = s
  ∧ writes (exec (cast_vote recover_message now p) s) = []
  ∧ (e = HTTPException 400 "Invalid or used nonce"
     ∨ (nonce_usable (final (exec (cast_vote recover_message now p) s))
                     (lower (address p)) (nonce p) = true
        ∧ (e = HTTPException 401 "Signature verification failed"
           ∨ ∃ text, e = HTTPException 400
                           ("Invalid signature: " +:+ str_prefix 60 text)))).
Proof.
  rewrite exec_cast_vote. cbn zeta.
  destruct (find_one "nonce" _ s) as [d|] eqn:Hn.
  - assert (nonce_usable s (lower (address p)) (nonce p) = true) as Hu
      by (apply nonce_usable_find; eauto).
    destruct (recover_message _ _) as [text|recovered].
    + cbn. intros [= <-]. repeat split. right. split; [done|]. right. eauto.
    + destruct (bool_decide _).
      * cbn. intros [= <-]. repeat split. right. split; [done|]. by left.
      * destruct (has_voted _ _ _); cbn; discriminate.
  - cbn. intros [= <-]. repeat split. by left.
Qed.

(** C8. Issuing a nonce for the empty address raises 400 "Address
    required" and writes nothing; for any other address the answer is the
    lowercased address with the generated nonce, and the record put last
    in the nonce collection carries the lowercased address, that nonce and
    [used = false]. *)
Theorem create_nonce_address (now : Z) (entropy : list Byte.byte)
        (a : string) (s : store) :
  let o := exec (create_nonce now entropy a) s in
  match a with
  | EmptyString =>
      o = Outcome (inl (HTTPException 400 "Address required")) s []
  | String _ _ =>
      result o = inr {[ "address" := VStr (lower a);
                        "nonce" := VStr (generate_nonce entropy) ]}
      ∧ last (docs (final o) "nonce")
        = Some {[ "_id" := VOid (next_oid s);
                  "address" := VStr (lower a);
                  "nonce" := VStr (generate_nonce entropy);
                  "used" := VBool false ]}
  end.
Proof.
  intros o. subst o. rewrite exec_create_nonce.
  destruct a as [|c a]; [reflexivity|]. cbn [str_truthy result final].
  cbn zeta. split; [reflexivity|].
  rewrite docs_add_doc_eq, last_snoc. reflexivity.
Qed.

(** C4. Past the nonce check, what [cast_vote] does is decided by the
    signature library asked about the personal-sign message
    [VOTE:{project_id}:{nonce}], put together from the two submitted
    fields, and the submitted signature: when recovery raises, a 400
    "Invalid signature: ..." with the first 60 characters of the library's
    text; when it recovers an address that differs from the claimed one
    once both are lowercased, a 401 "Signature verification failed";
    otherwise the vote goes through. Nothing else of the library is
    consulted: a library that agrees on this one question gives the same
    run. *)
Theorem signature_over_canonical_message (now : Z) (p : VoteCreate)
        (s : store) :
  nonce_usable s (lower (address p)) (nonce p) = true →
  let o := exec (cast_vote recover_message now p) s in
  let message :=
    encode_defunct ("VOTE:" +:+ project_id p +:+ ":" +:+ nonce p) in
  match recover_message message (signature p) with
  | inl text =>
      o = Outcome (inl (HTTPException 400
                          ("Invalid signature: " +:+ str_prefix 60 text))) s []
  | inr recovered =>
      if bool_decide (lower recovered = lower (address p)) then
        ∃ response, result o = inr response
      else
        o = Outcome (inl (HTTPException 401 "Signature verification failed"))
                    s []
  end
  ∧ ∀ other : SignableMessage → string → string + string,
      other message (signature p) = recover_message message (signature p) →
      exec (cast_vote other now p) s = o.
Proof.
  intros Hn o message. subst o message. rewrite exec_cast_vote. cbn zeta.
  apply nonce_usable_find in Hn as [d Hd]. rewrite Hd.
  change (vote_message p) with ("VOTE:" +:+ project_id p +:+ ":" +:+ nonce p).
  split.
  - destruct (recover_message _ _) as [text|recovered]; [reflexivity|].
    destruct (decide (lower recovered = lower (address p))) as [Heq|Hne].
    + rewrite (bool_decide_eq_true_2 _ Heq).
      rewrite bool_decide_eq_false_2 by (intros H; by apply H).
      destruct (has_voted _ _ _); cbn; eauto.
    + rewrite (bool_decide_eq_false_2 _ Hne).
      by rewrite (bool_decide_eq_true_2 _ Hne).
  - intros other Hother. rewrite exec_cast_vote. cbn zeta. rewrite Hd.
    change (vote_message p) with ("VOTE:" +:+ project_id p +:+ ":" +:+ nonce p).
    by rewrite Hother.
Qed.

(** C10. Issuing a nonce for an address leaves the vote collection and the
    project collection as they were, and in the nonce collection the
    records of every other address, in their order, are the same before
    and after. *)
Theorem create_nonce_frame (now : Z) (entropy : list Byte.byte)
        (a : string) (s : store) :
  let s' := final (exec (create_nonce now entropy a) s) in
  docs s' "vote" = docs s "vote"
  ∧ docs s' "project" = docs s "project"
  ∧ filter (λ d : doc, d !! "address" ≠ Some (VStr (lower a))) (docs s' "nonce")
    = filter (λ d : doc, d !! "address" ≠ Some (VStr (lower a))) (docs s "nonce").
Proof.
  intros s'. subst s'. rewrite exec_create_nonce.
  destruct (str_truthy a); [|done]. cbn [final]. cbn zeta.
  rewrite !docs_add_doc_ne by done. unfold update_many.
  rewrite !docs_set_docs_ne by done. repeat split.
  rewrite docs_add_doc_eq, docs_set_docs_eq, filter_app.
  rewrite filter_cons_False, filter_nil, app_nil_r.
  2:{ intros H. apply H. rewrite lookup_insert_ne by done.
      apply lookup_insert_eq. }
  induction (docs s "nonce") as [|d l IH]; [done|]. cbn [map].
  destruct (matches _ d) eqn:Hm.
  - apply matches_2 in Hm as [Ha _]; [|done].
    rewrite !filter_cons_False; [done|by intros H|].
    intros H. apply H. by rewrite set_used_other.
  - destruct (decide (d !! "address" ≠ Some (VStr (lower a)))) as [H|H].
    + rewrite !filter_cons_True by done. by rewrite IH.
    + by rewrite !filter_cons_False.
Qed.

(** *** Counting the nonce records of an address *)

Lemma filter_map_none {A : Type} (f : A → bool) (g : A → A) (l : list A) :
  (∀ x, f (g x) = false) → List.filter f (map g l) = [].
Proof.
  intros H. induction l as [|x l IH]; cbn; [done|]. by rewrite H.
Qed.

Lemma filter_map_split {A : Type} (f f1 f2 : A → bool) (g : A → A)
      (l : list A) :
  (∀ x, f (g x) = f1 x || f2 x) → (∀ x, f1 x && f2 x = false) →
  length (List.filter f (map g l))
  = length (List.filter f1 l) + length (List.filter f2 l).
Proof.
  intros Hf Hd. induction l as [|x l IH]; cbn; [done|].
  rewrite Hf. specialize (Hd x).
  destruct (f1 x), (f2 x); cbn in *; try discriminate; lia.
Qed.

Lemma filter_map_same {A : Type} (f : A → bool) (g : A → A) (l : list A) :
  (∀ x, f (g x) = f x) →
  length (List.filter f (map g l)) = length (List.filter f l).
Proof.
  intros Hf. induction l as [|x l IH]; cbn; [done|].
  rewrite Hf. destruct (f x); cbn; lia.
Qed.

Lemma invalidate_unused (now : Z) (addr a' : string) (d : doc) :
  matches {[ "address" := VStr a'; "used" := VBool false ]}
          (invalidate now addr d) = true →
  a' ≠ addr
  ∧ matches {[ "address" := VStr a'; "used" := VBool false ]} d = true.
Proof.
  unfold invalidate.
  destruct (matches {[ "address" := VStr addr; "used" := VBool false ]} d)
    eqn:Hm.
  - intros [_ H]%matches_2; [|done]. rewrite set_used_lookup in H.
    discriminate.
  - intros H. split; [|done]. intros ->. congruence.
Qed.

Lemma invalidate_used (now : Z) (addr : string) (d : doc) :
  matches {[ "address" := VStr addr; "used" := VBool true ]}
          (invalidate now addr d)
  = matches {[ "address" := VStr addr; "used" := VBool true ]} d
    || matches {[ "address" := VStr addr; "used" := VBool false ]} d.
Proof.
  unfold invalidate.
  destruct (matches {[ "address" := VStr addr; "used" := VBool false ]} d)
    eqn:Hm.
  - rewrite orb_true_r. apply matches_2; [done|].
    apply matches_2 in Hm as [Ha _]; [|done].
    split; [by rewrite set_used_other | apply set_used_lookup].
  - by rewrite orb_false_r.
Qed.

Lemma invalidate_address (now : Z) (addr : string) (d : doc) :
  invalidate now addr d !! "address" = d !! "address".
Proof.
  unfold invalidate. destruct (matches _ d); [|done]. by apply set_used_other.
Qed.

Lemma used_unused_disjoint (addr : string) (d : doc) :
  matches {[ "address" := VStr addr; "used" := VBool true ]} d
  && matches {[ "address" := VStr addr; "used" := VBool false ]} d = false.
Proof.
  apply not_true_is_false. intros [H1 H2]%andb_true_iff.
  apply matches_2 in H1 as [_ H1]; [|done].
  apply matches_2 in H2 as [_ H2]; [|done]. congruence.
Qed.

Lemma create_nonce_counts (now : Z) (entropy : list Byte.byte) (a : string)
      (s : store) :
  a ≠ EmptyString →
  let s' := final (exec (create_nonce now entropy a) s) in
  length (unused_nonces s' (lower a)) = 1
  ∧ length (used_nonces s' (lower a))
    = length (used_nonces s (lower a)) + length (unused_nonces s (lower a))
  ∧ length (nonces_of s' (lower a)) = S (length (nonces_of s (lower a))).
Proof.
  intros Ha s'. subst s'. rewrite exec_create_nonce.
  destruct a as [|c a]; [done|]. cbn [str_truthy final]. cbn zeta.
  set (addr := lower (String c a)).
  unfold unused_nonces, used_nonces, nonces_of, find_many.
  rewrite !docs_add_doc_eq. unfold update_many. rewrite !docs_set_docs_eq.
  rewrite !List.filter_app, !length_app.
  fold (invalidate now addr).
  repeat split.
  - rewrite filter_map_none.
    2:{ intros d. apply not_true_is_false.
        intros [H _]%invalidate_unused. done. }
    cbn. replace (matches _ _) with true; [done|].
    symmetry. apply matches_2; [done|]. split.
    + rewrite lookup_insert_ne by done. apply lookup_insert_eq.
    + rewrite !lookup_insert_ne by done. apply lookup_singleton_eq.
  - rewrite (filter_map_split _ _ _ _ _ (invalidate_used now addr)
                              (used_unused_disjoint addr)).
    cbn. replace (matches _ _) with false; [cbn; lia|].
    symmetry. apply not_true_is_false. intros [_ H]%matches_2; [|done].
    rewrite !lookup_insert_ne in H by done.
    rewrite lookup_singleton_eq in H. discriminate.
  - rewrite filter_map_same.
    2:{ intros d. apply eq_true_iff_eq. rewrite !matches_1.
        by rewrite invalidate_address. }
    cbn. replace (matches _ _) with true; [cbn; lia|].
    symmetry. apply matches_1. rewrite lookup_insert_ne by done.
    apply lookup_insert_eq.
Qed.

Lemma serve_all_cons (r : request) (rs : list request) (s : store) :
  serve_all recover_message (r :: rs) s
  = serve_all recover_message rs (serve recover_message s r).
Proof. reflexivity. Qed.

Lemma serve_all_app (rs rs' : list request) (s : store) :
  serve_all recover_message (rs ++ rs') s
  = serve_all recover_message rs' (serve_all recover_message rs s).
Proof. unfold serve_all. apply foldl_app. Qed.

Lemma issue_all_counts (draws : list (Z * list Byte.byte)) (a : string)
      (s : store) :
  a ≠ EmptyString →
  let s' := serve_all recover_message (issue_all draws a) s in
  length (nonces_of s' (lower a))
  = length (nonces_of s (lower a)) + length draws
  ∧ (draws ≠ [] →
     length (unused_nonces s' (lower a)) = 1
     ∧ length (used_nonces s' (lower a)) + 1
       = length (used_nonces s (lower a))
         + length (unused_nonces s (lower a)) + length draws).
Proof.
  intros Ha. revert s. induction draws as [|[now entropy] ds IH]; intros s.
  - cbn. split; [lia|done].
  - cbn [issue_all map fst snd]. rewrite serve_all_cons. cbn zeta.
    fold (issue_all ds a).
    destruct (create_nonce_counts now entropy a s Ha) as (Hu & Hv & Ht).
    cbn zeta in Hu, Hv, Ht.
    change (final (exec (create_nonce now entropy a) s))
      with (serve recover_message s (PostNonce now entropy a)) in Hu, Hv, Ht.
    destruct (IH (serve recover_message s (PostNonce now entropy a)))
      as [IHt IHuv].
    split.
    + rewrite IHt, Ht. cbn. lia.
    + intros _. destruct ds as [|d ds'].
      * cbn. rewrite Hu, Hv. lia.
      * destruct IHuv as [IHu IHv]; [done|]. split; [done|].
        rewrite Hu, Hv in IHv. cbn [length] in *. lia.
Qed.

Lemma no_nonces_no_counts (s : store) (addr : string) :
  nonces_of s addr = [] →
  unused_nonces s addr = [] ∧ used_nonces s addr = [].
Proof.
  unfold nonces_of, unused_nonces, used_nonces, find_many.
  rewrite !filter_nil_existsb. intros H.
  split; apply not_true_is_false; intros (d & Hd & Hm)%existsb_elem_of;
    (enough (existsb (matches {[ "address" := VStr addr ]}) (docs s "nonce")
             = true) by congruence);
    apply existsb_elem_of; exists d; (split; [done|]); apply matches_1;
    by apply matches_2 in Hm as [? _].
Qed.

Lemma set_used_inserts (now : Z) (d : doc) :
  apply_set {[ "used" := VBool true; "updated_at" := VTime now ]} d
  = <["used" := VBool true]> (<["updated_at" := VTime now]> d).
Proof.
  unfold apply_set.
  by rewrite <- insert_union_l, <- insert_union_singleton_l.
Qed.

(** C3. Starting from a store with no nonce record of the lowercased
    address, any number n >= 1 of issue-nonce calls in a row for a
    non-empty address leaves exactly one record of that address unused
    and the other n - 1 used. Each call makes two writes, in this order:
    every record of the address with [used = false] gets [used = true]
    (and the time of the change), then the record of the freshly
    generated nonce goes in with [used = false]. *)
Theorem nonce_uniqueness (draws : list (Z * list Byte.byte)) (a : string)
        (s : store) :
  a ≠ EmptyString → draws ≠ [] → nonces_of s (lower a) = [] →
  let s' := serve_all recover_message (issue_all draws a) s in
  (length (unused_nonces s' (lower a)) = 1
   ∧ length (used_nonces s' (lower a)) = length draws - 1
   ∧ length (nonces_of s' (lower a)) = length draws)
  ∧ ∀ (now : Z) (entropy : list Byte.byte) (s0 : store),
      ∃ s1 s2,
        writes (exec (create_nonce now entropy a) s0) = [s1; s2]
        ∧ final (exec (create_nonce now entropy a) s0) = s2
        ∧ docs s1 "nonce"
          = map (λ d : doc,
                   if bool_decide (d !! "address" = Some (VStr (lower a))
                                   ∧ d !! "used" = Some (VBool false))
                   then <["used" := VBool true]>
                          (<["updated_at" := VTime now]> d)
                   else d)
                (docs s0 "nonce")
        ∧ docs s2 "nonce"
          = docs s1 "nonce"
            ++ [ {[ "_id" := VOid (next_oid s0);
                    "address" := VStr (lower a);
                    "nonce" := VStr (generate_nonce entropy);
                    "used" := VBool false ]} ].
Proof.
  intros Ha Hd Hs s'. split.
  - destruct (issue_all_counts draws a s Ha) as [Ht Huv].
    destruct (Huv Hd) as [Hu Hv]. fold s' in Ht, Hu, Hv.
    destruct (no_nonces_no_counts s (lower a) Hs) as [Hu0 Hv0].
    rewrite Hu0, Hv0 in Hv. rewrite Hs in Ht. cbn in Ht, Hv.
    repeat split; [done|lia|done].
  - intros now entropy s0. rewrite exec_create_nonce.
    destruct a as [|c a]; [done|]. cbn [str_truthy writes final]. cbn zeta.
    eexists _, _. split; [reflexivity|]. split; [reflexivity|]. split.
    + unfold update_many. rewrite docs_set_docs_eq. apply map_ext.
      intros d.
      destruct (matches _ d) eqn:Hm.
      * rewrite bool_decide_eq_true_2 by (by apply matches_2 in Hm).
        apply set_used_inserts.
      * rewrite bool_decide_eq_false_2; [done|].
        intros H. apply matches_2 in H; [congruence|done].
    + by rewrite docs_add_doc_eq.
Qed.

(** *** How one request changes the nonce and the vote collection *)

Lemma touched_lookup (d d' : doc) (k : string) :
  touched d d' → k ≠ "used" → k ≠ "updated_at" → d' !! k = d !! k.
Proof. intros [->|[now ->]] H1 H2; [done|]. by apply set_used_other. Qed.

Lemma touched_unused (flt d d' : doc) :
  touched d d' → flt !! "used" = Some (VBool false) →
  matches flt d' = true → d' = d.
Proof.
  intros [->|[now ->]] Hf Hm; [done|]. rewrite matches_spec in Hm.
  apply Hm in Hf. rewrite set_used_lookup in Hf. discriminate.
Qed.

Lemma invalidate_touched (now : Z) (addr : string) (l : list doc) :
  Forall2 touched l (map (invalidate now addr) l).
Proof.
  induction l as [|d l IH]; constructor; [|done].
  unfold invalidate. destruct (matches _ d); [right; eauto | by left].
Qed.

Lemma set_first_touched (now : Z) (flt : doc) (l : list doc) :
  Forall2 touched l
    (set_first flt {[ "used" := VBool true; "updated_at" := VTime now ]} l).
Proof.
  induction l as [|d l IH]; cbn; [constructor|].
  destruct (matches flt d).
  - constructor; [right; eauto|]. apply Forall2_same_length_lookup_2; [done|].
    intros i x y Hx Hy. left. congruence.
  - constructor; [by left | done].
Qed.

Lemma touched_refl (l : list doc) : Forall2 touched l l.
Proof. induction l; constructor; [by left | done]. Qed.

Lemma serve_nonce_docs (r : request) (s : store) :
  (Forall2 touched (docs s "nonce") (docs (serve recover_message s r) "nonce")
   ∧ next_oid s ≤ next_oid (serve recover_message s r))
  ∨ ∃ now entropy a,
      r = PostNonce now entropy a
      ∧ docs (serve recover_message s r) "nonce"
        = map (invalidate now (lower a)) (docs s "nonce")
          ++ [ <["_id" := VOid (next_oid s)]>
                 {[ "address" := VStr (lower a);
                    "nonce" := VStr (generate_nonce entropy);
                    "used" := VBool false ]} ]
      ∧ next_oid (serve recover_message s r) = S (next_oid s).
Proof.
  destruct r as [now entropy a|p|now p]; unfold serve; cbn [handler].
  - rewrite exec_create_nonce. destruct (str_truthy a); cbn [final]; cbn zeta.
    + right. exists now, entropy, a. split; [done|].
      rewrite docs_add_doc_eq. unfold update_many.
      by rewrite docs_set_docs_eq.
    + left. split; [apply touched_refl | done].
  - left. rewrite exec_create_project. cbn [final]. cbn zeta.
    rewrite docs_add_doc_ne by done. split; [apply touched_refl|cbn; lia].
  - left. rewrite exec_cast_vote. cbn zeta.
    destruct (find_one "nonce" _ s) as [d|];
      [|split; [apply touched_refl | done]].
    destruct (recover_message _ _) as [e|recovered];
      [split; [apply touched_refl | done]|].
    destruct (bool_decide _); [split; [apply touched_refl | done]|].
    destruct (has_voted _ _ _); [split; [apply touched_refl | done]|].
    cbn [final]. unfold update_one. rewrite docs_set_docs_eq.
    rewrite docs_add_doc_ne by done.
    split; [apply set_first_touched | cbn; lia].
Qed.

Lemma serve_vote_docs (r : request) (s : store) :
  docs (serve recover_message s r) "vote" = docs s "vote"
  ∨ ∃ now p,
      r = PostVote now p
      ∧ has_voted s (project_id p) (lower (address p)) = false
      ∧ docs (serve recover_message s r) "vote"
        = docs s "vote"
          ++ [ <["_id" := VOid (next_oid s)]>
                 {[ "project_id" := VStr (project_id p);
                    "address" := VStr (lower (address p));
                    "signature" := VStr (signature p);
                    "nonce" := VStr (nonce p) ]} ].
Proof.
  destruct r as [now entropy a|p|now p]; unfold serve; cbn [handler].
  - left. rewrite exec_create_nonce. destruct (str_truthy a); [|done].
    cbn [final]. cbn zeta. rewrite docs_add_doc_ne by done.
    unfold update_many. by rewrite docs_set_docs_ne.
  - left. rewrite exec_create_project. cbn [final]. cbn zeta.
    by rewrite docs_add_doc_ne.
  - rewrite exec_cast_vote. cbn zeta.
    destruct (find_one "nonce" _ s) as [d|]; [|by left].
    destruct (recover_message _ _) as [e|recovered]; [by left|].
    destruct (bool_decide _); [by left|].
    destruct (has_voted _ _ _) eqn:Hv; [by left|].
    right. exists now, p. split; [done|]. split; [done|].
    cbn [final]. unfold update_one. rewrite docs_set_docs_ne by done.
    by rewrite docs_add_doc_eq.
Qed.

(** *** What holds of the nonce collection in every store the service
    can reach *)

Lemma touched_at (l l' : list doc) (i : nat) (d' : doc) :
  Forall2 touched l l' → l' !! i = Some d' →
  ∃ d, l !! i = Some d ∧ touched d d'.
Proof. intros H Hi. by apply (Forall2_lookup_r _ _ _ _ _ H Hi). Qed.

Lemma touched_ids_below (n m : nat) (l l' : list doc) :
  Forall2 touched l l' → n ≤ m → ids_below n l → ids_below m l'.
Proof.
  intros Ht Hnm Hl d' [i Hi]%list_elem_of_lookup.
  destruct (touched_at _ _ _ _ Ht Hi) as (d & Hd & Hdd).
  destruct (Hl d) as (k & Hk & Hlt); [by eapply list_elem_of_lookup_2|].
  exists k. rewrite (touched_lookup _ _ "_id" Hdd) by done. split; [done|lia].
Qed.

Lemma touched_ids_unique (l l' : list doc) :
  Forall2 touched l l' → ids_unique l → ids_unique l'.
Proof.
  intros Ht Hl i j d1' d2' Hi Hj Heq.
  destruct (touched_at _ _ _ _ Ht Hi) as (d1 & Hd1 & H1).
  destruct (touched_at _ _ _ _ Ht Hj) as (d2 & Hd2 & H2).
  apply (Hl i j d1 d2 Hd1 Hd2).
  rewrite <- (touched_lookup _ _ "_id" H1), <- (touched_lookup _ _ "_id" H2);
    done.
Qed.

Lemma touched_one_unused (l l' : list doc) :
  Forall2 touched l l' → one_unused l → one_unused l'.
Proof.
  intros Ht Hl i j d1' d2' addr Hi Hj Hm1 Hm2.
  destruct (touched_at _ _ _ _ Ht Hi) as (d1 & Hd1 & H1).
  destruct (touched_at _ _ _ _ Ht Hj) as (d2 & Hd2 & H2).
  assert (({[ "address" := VStr addr; "used" := VBool false ]} : doc)
            !! "used" = Some (VBool false)) as Hf.
  { rewrite lookup_insert_ne by done. apply lookup_singleton_eq. }
  rewrite (touched_unused _ _ _ H1 Hf Hm1) in Hm1.
  rewrite (touched_unused _ _ _ H2 Hf Hm2) in Hm2.
  by apply (Hl i j d1 d2 addr).
Qed.

Lemma snoc_lookup_cases {A : Type} (l : list A) (x y : A) (i : nat) :
  (l ++ [x]) !! i = Some y →
  (i < length l ∧ l !! i = Some y) ∨ (i = length l ∧ y = x).
Proof.
  intros H. destruct (decide (i < length l)) as [Hlt|Hge].
  - left. split; [done|]. by rewrite lookup_app_l in H.
  - right. rewrite lookup_app_r in H by lia.
    destruct (i - length l) as [|k] eqn:E; cbn in H; [|done].
    split; [lia|congruence].
Qed.

Lemma issue_nonces_ok (now : Z) (addr n : string) (k : nat) (l : list doc) :
  ids_below k l → ids_unique l → one_unused l →
  let l' := map (invalidate now addr) l
            ++ [ <["_id" := VOid k]>
                   {[ "address" := VStr addr; "nonce" := VStr n;
                      "used" := VBool false ]} ] in
  ids_below (S k) l' ∧ ids_unique l' ∧ one_unused l'.
Proof.
  intros Hb Hu Ho l'. pose proof (invalidate_touched now addr l) as Ht.
  pose proof (touched_ids_below k k _ _ Ht (le_n _) Hb) as Hb'.
  pose proof (touched_ids_unique _ _ Ht Hu) as Hu'.
  pose proof (touched_one_unused _ _ Ht Ho) as Ho'.
  subst l'. set (m := map (invalidate now addr) l) in *.
  repeat split.
  - intros d [Hd|Hd]%elem_of_app.
    + destruct (Hb' d Hd) as (k' & ? & ?). exists k'. split; [done|lia].
    + apply list_elem_of_singleton in Hd as ->. exists k.
      rewrite lookup_insert_eq. split; [done|lia].
  - intros i j d d' Hi Hj Heq.
    apply snoc_lookup_cases in Hi as [[Hil Hi]|[-> ->]];
      apply snoc_lookup_cases in Hj as [[Hjl Hj]|[-> ->]].
    + by apply (Hu' i j d d').
    + destruct (Hb' d) as (k' & Hk' & Hlt); [by eapply list_elem_of_lookup_2|].
      rewrite lookup_insert_eq, Hk' in Heq. injection Heq as ->. lia.
    + destruct (Hb' d') as (k' & Hk' & Hlt); [by eapply list_elem_of_lookup_2|].
      rewrite lookup_insert_eq, Hk' in Heq. injection Heq as <-. lia.
    + done.
  - intros i j d d' a Hi Hj Hm Hm'.
    assert (∀ x, <["_id" := VOid k]>
                   ({[ "address" := VStr addr; "nonce" := VStr n;
                       "used" := VBool false ]} : doc) = x →
                 matches {[ "address" := VStr a; "used" := VBool false ]} x
                 = true → a = addr) as Hnew.
    { intros x <- [Ha _]%matches_2; [|done].
      rewrite lookup_insert_ne, lookup_insert_eq in Ha by done.
      congruence. }
    assert (∀ i x, m !! i = Some x →
                   matches {[ "address" := VStr addr; "used" := VBool false ]} x
                   = true → False) as Hold.
    { intros i0 x Hx Hmx. unfold m in Hx.
      apply list_lookup_fmap_Some in Hx as (x0 & -> & _).
      by apply invalidate_unused in Hmx as [? _]. }
    apply snoc_lookup_cases in Hi as [[Hil Hi]|[-> ->]];
      apply snoc_lookup_cases in Hj as [[Hjl Hj]|[-> ->]].
    + by apply (Ho' i j d d' a).
    + rewrite (Hnew _ eq_refl Hm') in Hm. by destruct (Hold i d).
    + rewrite (Hnew _ eq_refl Hm) in Hm'. by destruct (Hold j d').
    + done.
Qed.

Lemma nonces_ok_serve (r : request) (s : store) :
  nonces_ok s → nonces_ok (serve recover_message s r).
Proof.
  intros (Hb & Hu & Ho).
  destruct (serve_nonce_docs r s) as [[Ht Hle]|(now & e & a & -> & Hd & Hn)].
  - repeat split.
    + by apply (touched_ids_below _ _ _ _ Ht Hle).
    + by apply (touched_ids_unique _ _ Ht).
    + by apply (touched_one_unused _ _ Ht).
  - unfold nonces_ok. rewrite Hd, Hn. by apply issue_nonces_ok.
Qed.

Lemma nonces_ok_serve_all (rs : list request) (s : store) :
  nonces_ok s → nonces_ok (serve_all recover_message rs s).
Proof.
  revert s. induction rs as [|r rs IH]; intros s Hs; [done|].
  rewrite serve_all_cons. by apply IH, nonces_ok_serve.
Qed.

Lemma nonces_ok_reachable (uniq : bool) (history : list request) :
  nonces_ok (serve_all recover_message history (Mongo.empty uniq)).
Proof.
  apply nonces_ok_serve_all. repeat split.
  - intros d Hd. by apply elem_of_nil in Hd.
  - intros i j d d' Hi. done.
  - intros i j d d' a Hi. done.
Qed.

(** *** A fresh vote, step by step *)

Lemma set_first_unique (flt upd : doc) (l : list doc) (i : nat) (d : doc) :
  l !! i = Some d → matches flt d = true →
  (∀ j d', l !! j = Some d' → matches flt d' = true → j = i) →
  set_first flt upd l = <[i := apply_set upd d]> l.
Proof.
  revert i. induction l as [|x l IH]; intros i Hi Hm Huniq; [done|].
  destruct i as [|i]; cbn in *.
  - injection Hi as ->. by rewrite Hm.
  - destruct (matches flt x) eqn:Hx.
    + by specialize (Huniq 0 x eq_refl Hx).
    + f_equal. apply IH; [done..|]. intros j d' Hj Hd'.
      specialize (Huniq (S j) d' Hj Hd'). lia.
Qed.

Lemma consume_found (now : Z) (flt d0 : doc) (s : store) :
  nonces_ok s → find_one "nonce" flt s = Some d0 →
  ∃ i k,
    docs s "nonce" !! i = Some d0 ∧ matches flt d0 = true
    ∧ d0 !! "_id" = Some (VOid k)
    ∧ set_first {[ "_id" := doc_get "_id" d0 ]}
        {[ "used" := VBool true; "updated_at" := VTime now ]} (docs s "nonce")
      = <[i := apply_set {[ "used" := VBool true;
                            "updated_at" := VTime now ]} d0]> (docs s "nonce").
Proof.
  intros (Hb & Hu & _) (i & Hi & Hm & _)%find_first.
  destruct (Hb d0) as (k & Hk & _); [by eapply list_elem_of_lookup_2|].
  exists i, k. repeat split; [done..|].
  replace (doc_get "_id" d0) with (VOid k) by (unfold doc_get; by rewrite Hk).
  apply set_first_unique; [done|by apply matches_1|].
  intros j d' Hj Hd'%matches_1. apply (Hu j i d' d0 Hj Hi).
  by rewrite Hd', Hk.
Qed.

Lemma fresh_vote_run (now : Z) (p : VoteCreate) (s : store) (d0 : doc) :
  nonces_ok s →
  find_one "nonce" {[ "address" := VStr (lower (address p));
                      "nonce" := VStr (nonce p);
                      "used" := VBool false ]} s = Some d0 →
  signature_ok recover_message p = true →
  has_voted s (project_id p) (lower (address p)) = false →
  ∃ i k s1 s2,
    docs s "nonce" !! i = Some d0
    ∧ d0 !! "_id" = Some (VOid k)
    ∧ exec (cast_vote recover_message now p) s
      = Outcome (inr {[ "status" := VStr "ok";
                        "message" := VStr "Vote recorded" ]}) s2 [s1; s2]
    ∧ docs s1 "nonce" = docs s "nonce"
    ∧ docs s1 "vote"
      = docs s "vote"
        ++ [ <["_id" := VOid (next_oid s)]>
               {[ "project_id" := VStr (project_id p);
                  "address" := VStr (lower (address p));
                  "signature" := VStr (signature p);
                  "nonce" := VStr (nonce p) ]} ]
    ∧ docs s2 "vote" = docs s1 "vote"
    ∧ docs s2 "nonce"
      = <[i := apply_set {[ "used" := VBool true;
                            "updated_at" := VTime now ]} d0]> (docs s "nonce").
Proof.
  intros Hok Hn Hs Hv.
  destruct (consume_found now _ _ _ Hok Hn) as (i & k & Hi & Hm & Hk & Hset).
  exists i, k. eexists _, _. split; [done|]. split; [done|].
  rewrite exec_cast_vote. cbn zeta. rewrite Hn.
  apply signature_ok_recovered in Hs as (recovered & -> & ->). rewrite Hv.
  split; [reflexivity|].
  unfold update_one. rewrite docs_set_docs_eq, docs_set_docs_ne by done.
  rewrite docs_add_doc_ne, docs_add_doc_eq by done. by rewrite Hset.
Qed.

Lemma has_voted_snoc (s s' : store) (pid addr : string) (d : doc) :
  docs s' "vote" = docs s "vote" ++ [d] →
  d !! "project_id" = Some (VStr pid) → d !! "address" = Some (VStr addr) →
  has_voted s' pid addr = true.
Proof.
  intros Hd Hp Ha. apply has_voted_spec. exists d. rewrite Hd.
  split; [|done]. apply elem_of_app. right. by apply list_elem_of_singleton.
Qed.

(** C6. In a store the service can reach, a correctly signed vote with a
    usable nonce for a pair without a vote makes exactly two writes: the
    first puts the vote record in and leaves the nonce collection as it
    was, the second marks the looked-up nonce record used and leaves the
    vote collection as it was. So in no store the run passes through, the
    first one included, is that nonce record used while the pair has no
    vote record; and when "Vote recorded" comes back every record with the
    nonce record's [_id] has [used = true]. *)
Theorem vote_recorded_before_nonce_consumed
        (uniq : bool) (history : list request) (now : Z) (p : VoteCreate) :
  let s := serve_all recover_message history (Mongo.empty uniq) in
  nonce_usable s (lower (address p)) (nonce p) = true →
  signature_ok recover_message p = true →
  has_voted s (project_id p) (lower (address p)) = false →
  ∃ nonce_doc oid s1 s2,
    find_one "nonce" {[ "address" := VStr (lower (address p));
                        "nonce" := VStr (nonce p);
                        "used" := VBool false ]} s = Some nonce_doc
    ∧ nonce_doc !! "_id" = Some oid
    ∧ exec (cast_vote recover_message now p) s
      = Outcome (inr {[ "status" := VStr "ok";
                        "message" := VStr "Vote recorded" ]}) s2 [s1; s2]
    ∧ (has_voted s1 (project_id p) (lower (address p)) = true
       ∧ docs s1 "nonce" = docs s "nonce"
       ∧ ¬ consumed s1 oid)
    ∧ (has_voted s2 (project_id p) (lower (address p)) = true
       ∧ docs s2 "vote" = docs s1 "vote"
       ∧ consumed s2 oid
       ∧ ∀ d, d ∈ docs s2 "nonce" → d !! "_id" = Some oid →
              d !! "used" = Some (VBool true))
    ∧ ∀ st, st ∈ s :: [s1; s2] → consumed st oid →
            has_voted st (project_id p) (lower (address p)) = true.
Proof.
  intros s Hn Hs Hv.
  pose proof (nonces_ok_reachable uniq history) as Hok. fold s in Hok.
  apply nonce_usable_find in Hn as [d0 Hd0].
  destruct (fresh_vote_run now p s d0 Hok Hd0 Hs Hv)
    as (i & k & s1 & s2 & Hi & Hk & Hrun & Hn1 & Hv1 & Hv2 & Hn2).
  exists d0, (VOid k), s1, s2. split; [done|]. split; [done|].
  split; [done|].
  pose proof Hd0 as (_ & _ & Hm & _)%find_first.
  apply matches_3 in Hm as (Ha & Hnn & Hu); [|done..].
  assert (¬ consumed s (VOid k)) as Hfresh.
  { intros (d & [j Hj]%list_elem_of_lookup & Hid & Hused).
    destruct Hok as (_ & Huniq & _).
    assert (j = i) as -> by (apply (Huniq j i d d0 Hj Hi); congruence).
    congruence. }
  assert (has_voted s1 (project_id p) (lower (address p)) = true) as Hvoted1.
  { apply (has_voted_snoc s s1 _ _ _ Hv1).
    - rewrite lookup_insert_ne by done. apply lookup_insert_eq.
    - rewrite !lookup_insert_ne by done. apply lookup_insert_eq. }
  assert (has_voted s2 (project_id p) (lower (address p)) = true) as Hvoted2.
  { unfold has_voted in *. by rewrite Hv2. }
  assert (¬ consumed s1 (VOid k)) as Hfresh1.
  { unfold consumed. by rewrite Hn1. }
  split; [done|]. split.
  - split; [done|]. split; [done|].
    assert (i < length (docs s "nonce")) as Hlen
        by (by eapply lookup_lt_Some).
    split.
    + exists (apply_set {[ "used" := VBool true;
                           "updated_at" := VTime now ]} d0).
      rewrite Hn2. split.
      * apply list_elem_of_lookup. exists i.
        by apply list_lookup_insert_eq.
      * split; [by rewrite set_used_other | apply set_used_lookup].
    + intros d [j Hj]%list_elem_of_lookup Hid. rewrite Hn2 in Hj.
      destruct (decide (j = i)) as [->|Hne].
      * rewrite list_lookup_insert_eq in Hj by done. injection Hj as <-.
        apply set_used_lookup.
      * rewrite list_lookup_insert_ne in Hj by done.
        destruct Hok as (_ & Huniq & _).
        destruct Hne. apply (Huniq j i d d0 Hj Hi). congruence.
  - intros st Hst Hc.
    apply elem_of_cons in Hst as [->|Hst]; [by destruct Hfresh|].
    apply elem_of_cons in Hst as [->|Hst]; [done|].
    by apply list_elem_of_singleton in Hst as ->.
Qed.

(** *** Spent nonces stay spent *)

Lemma unused_filter_used (addr n : string) :
  ({[ "address" := VStr addr; "nonce" := VStr n; "used" := VBool false ]} : doc)
    !! "used" = Some (VBool false).
Proof. rewrite !lookup_insert_ne by done. apply lookup_singleton_eq. Qed.

Lemma touched_keeps_spent (l l' : list doc) (addr n : string) :
  Forall2 touched l l' →
  existsb (matches {[ "address" := VStr addr; "nonce" := VStr n;
                      "used" := VBool false ]}) l = false →
  existsb (matches {[ "address" := VStr addr; "nonce" := VStr n;
                      "used" := VBool false ]}) l' = false.
Proof.
  intros Ht Hl. apply not_true_is_false.
  intros (d' & [j Hj]%list_elem_of_lookup & Hm)%existsb_elem_of.
  destruct (touched_at _ _ _ _ Ht Hj) as (d & Hd & Hdd).
  rewrite (touched_unused _ _ _ Hdd (unused_filter_used addr n) Hm) in Hm.
  enough (existsb (matches {[ "address" := VStr addr; "nonce" := VStr n;
                              "used" := VBool false ]}) l = true)
    by congruence.
  apply existsb_elem_of. exists d. split; [|done].
  by eapply list_elem_of_lookup_2.
Qed.

Lemma serve_keeps_spent (r : request) (s : store) (addr n : string) :
  reissues addr n r = false →
  nonce_usable s addr n = false →
  nonce_usable (serve recover_message s r) addr n = false.
Proof.
  intros Hr Hs. unfold nonce_usable in *.
  destruct (serve_nonce_docs r s) as [[Ht _]|(now & e & a & -> & Hd & _)].
  - by apply (touched_keeps_spent _ _ _ _ Ht).
  - rewrite Hd, existsb_app.
    rewrite (touched_keeps_spent _ _ _ _ (invalidate_touched _ _ _) Hs).
    cbn. rewrite orb_false_r. apply not_true_is_false.
    intros (Ha & Hn & _)%matches_3; [|done..].
    cbn in Hr. apply bool_decide_eq_false in Hr. apply Hr.
    rewrite lookup_insert_ne, lookup_insert_eq in Ha by done.
    rewrite !lookup_insert_ne, lookup_insert_eq in Hn by done.
    split; congruence.
Qed.

Lemma serve_all_keeps_spent (rs : list request) (s : store) (addr n : string) :
  existsb (reissues addr n) rs = false →
  nonce_usable s addr n = false →
  nonce_usable (serve_all recover_message rs s) addr n = false.
Proof.
  revert s. induction rs as [|r rs IH]; intros s Hrs Hs; [done|].
  cbn in Hrs. apply orb_false_iff in Hrs as [Hr Hrs]. rewrite serve_all_cons.
  by apply IH, serve_keeps_spent.
Qed.

Lemma recorded_not_already :
  ({[ "status" := VStr "ok"; "message" := VStr "Vote already recorded" ]} : doc)
  ≠ {[ "status" := VStr "ok"; "message" := VStr "Vote recorded" ]}.
Proof.
  intros H. apply (f_equal (λ m : doc, m !! "message")) in H.
  rewrite !lookup_insert_ne, !lookup_singleton_eq in H by done. discriminate.
Qed.

(** The only way to "Vote recorded". *)
Lemma vote_recorded_inv (now : Z) (p : VoteCreate) (s : store) :
  result (exec (cast_vote recover_message now p) s)
  = inr {[ "status" := VStr "ok"; "message" := VStr "Vote recorded" ]} →
  nonce_usable s (lower (address p)) (nonce p) = true
  ∧ signature_ok recover_message p = true
  ∧ has_voted s (project_id p) (lower (address p)) = false.
Proof.
  rewrite exec_cast_vote. cbn zeta. unfold signature_ok.
  destruct (find_one "nonce" _ s) as [d|] eqn:Hn; [|discriminate].
  destruct (recover_message _ _) as [e|recovered]; [discriminate|].
  destruct (bool_decide (lower recovered ≠ _)) eqn:Hb; [discriminate|].
  destruct (has_voted _ _ _).
  - cbn. intros H. destruct recorded_not_already. congruence.
  - intros _. split; [apply nonce_usable_find; eauto|]. split; [|done].
    apply bool_decide_eq_false in Hb. apply bool_decide_eq_true.
    by destruct (decide (lower recovered = lower (address p))).
Qed.

Lemma spent_after_vote (now : Z) (p : VoteCreate) (s : store) :
  nonces_ok s →
  result (exec (cast_vote recover_message now p) s)
  = inr {[ "status" := VStr "ok"; "message" := VStr "Vote recorded" ]} →
  nonce_usable (final (exec (cast_vote recover_message now p) s))
               (lower (address p)) (nonce p) = false.
Proof.
  intros Hok (Hn & Hs & Hv)%vote_recorded_inv.
  apply nonce_usable_find in Hn as [d0 Hd0].
  destruct (fresh_vote_run now p s d0 Hok Hd0 Hs Hv)
    as (i & k & s1 & s2 & Hi & Hk & -> & Hn1 & Hv1 & Hv2 & Hn2).
  cbn [final]. apply not_true_is_false.
  intros (d & [j Hj]%list_elem_of_lookup & Ha & Hnn & Hu)%nonce_usable_spec.
  rewrite Hn2 in Hj.
  assert (i < length (docs s "nonce")) as Hlen by (by eapply lookup_lt_Some).
  destruct (decide (j = i)) as [->|Hne].
  - rewrite list_lookup_insert_eq in Hj by done. injection Hj as <-.
    rewrite set_used_lookup in Hu. discriminate.
  - rewrite list_lookup_insert_ne in Hj by done.
    pose proof Hd0 as (_ & _ & Hm & _)%find_first.
    apply matches_3 in Hm as (Ha0 & _ & Hu0); [|done..].
    destruct Hok as (_ & _ & Hone). destruct Hne.
    apply (Hone j i d d0 (lower (address p)) Hj Hi);
      by apply matches_2.
Qed.

(** C2. [cast_vote] raises 400 "Invalid or used nonce" exactly when the
    nonce collection holds no record with the lowercased submitted
    address, the submitted nonce value and [used = false]. In particular,
    once a vote has come back "Vote recorded" in a store the service can
    reach, submitting its address and nonce again is rejected this way
    whatever the signature, valid ones included, for as long as the same
    nonce value has not been issued to that address anew. *)
Theorem invalid_or_used_nonce :
  (∀ (now : Z) (p : VoteCreate) (s : store),
      result (exec (cast_vote recover_message now p) s)
      = inl (HTTPException 400 "Invalid or used nonce")
      ↔ ¬ ∃ d, d ∈ docs s "nonce"
               ∧ d !! "address" = Some (VStr (lower (address p)))
               ∧ d !! "nonce" = Some (VStr (nonce p))
               ∧ d !! "used" = Some (VBool false))
  ∧ (∀ (uniq : bool) (history between : list request) (now0 now : Z)
       (p0 p : VoteCreate),
        let s := serve_all recover_message history (Mongo.empty uniq) in
        let voted := final (exec (cast_vote recover_message now0 p0) s) in
        result (exec (cast_vote recover_message now0 p0) s)
        = inr {[ "status" := VStr "ok"; "message" := VStr "Vote recorded" ]} →
        existsb (reissues (lower (address p0)) (nonce p0)) between = false →
        lower (address p) = lower (address p0) → nonce p = nonce p0 →
        result (exec (cast_vote recover_message now p)
                     (serve_all recover_message between voted))
        = inl (HTTPException 400 "Invalid or used nonce")).
Proof.
  assert (∀ (now : Z) (p : VoteCreate) (s : store),
             result (exec (cast_vote recover_message now p) s)
             = inl (HTTPException 400 "Invalid or used nonce")
             ↔ nonce_usable s (lower (address p)) (nonce p) = false) as Hiff.
  { intros now p s. rewrite exec_cast_vote. cbn zeta.
    destruct (find_one "nonce" _ s) as [d|] eqn:Hn.
    - assert (nonce_usable s (lower (address p)) (nonce p) = true) as ->
        by (apply nonce_usable_find; eauto).
      split; [|discriminate].
      destruct (recover_message _ _) as [e|recovered]; [cbn; discriminate|].
      destruct (bool_decide _); [cbn; discriminate|].
      destruct (has_voted _ _ _); cbn; discriminate.
    - split; [|done]. intros _. apply not_true_is_false.
      intros [d Hd]%nonce_usable_find. congruence. }
  split.
  - intros now p s. rewrite Hiff, <- nonce_usable_spec.
    by destruct (nonce_usable _ _ _).
  - intros uniq history between now0 now p0 p s voted Hrec Hbetween Ha Hn.
    apply Hiff. rewrite Ha, Hn. apply serve_all_keeps_spent; [done|].
    apply spent_after_vote; [apply nonces_ok_reachable | done].
Qed.

(** *** One vote per pair *)

Lemma serve_keeps_votes (r : request) (s : store) (pid addr : string) :
  has_voted s pid addr = true →
  votes_for (serve recover_message s r) pid addr = votes_for s pid addr.
Proof.
  intros Hv. unfold votes_for, find_many.
  destruct (serve_vote_docs r s) as [->|(now & p & -> & Hp & ->)]; [done|].
  rewrite List.filter_app. cbn.
  destruct (matches _ _) eqn:Hm; [|by rewrite app_nil_r].
  apply matches_2 in Hm as [H1 H2]; [|done].
  rewrite lookup_insert_ne, lookup_insert_eq in H1 by done.
  rewrite !lookup_insert_ne, lookup_insert_eq in H2 by done.
  congruence.
Qed.

Lemma has_voted_length (s : store) (pid addr : string) :
  has_voted s pid addr = true ↔ 0 < length (votes_for s pid addr).
Proof.
  destruct (has_voted s pid addr) eqn:Hv.
  - split; [intros _|done]. destruct (votes_for s pid addr) eqn:E; [|cbn; lia].
    apply has_voted_votes_for in E. congruence.
  - apply has_voted_votes_for in Hv as ->. cbn. split; [done|lia].
Qed.

Lemma serve_all_keeps_votes (rs : list request) (s : store)
      (pid addr : string) :
  has_voted s pid addr = true →
  votes_for (serve_all recover_message rs s) pid addr = votes_for s pid addr.
Proof.
  revert s. induction rs as [|r rs IH]; intros s Hv; [done|].
  rewrite serve_all_cons, IH; [by apply serve_keeps_votes|].
  apply has_voted_length. rewrite serve_keeps_votes by done.
  by apply has_voted_length.
Qed.

Lemma serve_votes_at_most_one (r : request) (s : store) (pid addr : string) :
  length (votes_for s pid addr) ≤ 1 →
  length (votes_for (serve recover_message s r) pid addr) ≤ 1.
Proof.
  intros Hle. destruct (has_voted s pid addr) eqn:Hv.
  - by rewrite serve_keeps_votes.
  - apply has_voted_votes_for in Hv. unfold votes_for, find_many in *.
    destruct (serve_vote_docs r s) as [->|(now & p & -> & Hp & ->)]; [done|].
    rewrite List.filter_app, Hv. cbn. destruct (matches _ _); cbn; lia.
Qed.

(** C1. Take any project and address with no vote on record. A correctly
    signed vote with a usable nonce comes back "Vote recorded" and leaves
    one vote record for the pair. Whatever requests are served after it, a
    second correctly signed vote for the same project and (lowercased)
    address with a nonce that is usable by then comes back "Vote already
    recorded", writes nothing, and the pair still has exactly one vote
    record. *)
Theorem single_vote_per_pair (s0 : store) (now1 now2 : Z)
        (p1 p2 : VoteCreate) (between : list request) :
  let pid := project_id p1 in
  let addr := lower (address p1) in
  let o1 := exec (cast_vote recover_message now1 p1) s0 in
  let s1 := serve_all recover_message between (final o1) in
  let o2 := exec (cast_vote recover_message now2 p2) s1 in
  project_id p2 = pid → lower (address p2) = addr →
  votes_for s0 pid addr = [] →
  nonce_usable s0 addr (nonce p1) = true →
  signature_ok recover_message p1 = true →
  nonce_usable s1 addr (nonce p2) = true →
  signature_ok recover_message p2 = true →
  result o1 = inr {[ "status" := VStr "ok"; "message" := VStr "Vote recorded" ]}
  ∧ length (votes_for (final o1) pid addr) = 1
  ∧ result o2 = inr {[ "status" := VStr "ok";
                       "message" := VStr "Vote already recorded" ]}
  ∧ final o2 = s1 ∧ writes o2 = []
  ∧ length (votes_for (final o2) pid addr) = 1.
Proof.
  intros pid addr o1 s1 o2. subst pid addr.
  intros Hpid Haddr Hnone Hn1 Hs1 Hn2 Hs2.
  assert (result o1 = inr {[ "status" := VStr "ok";
                             "message" := VStr "Vote recorded" ]}
          ∧ length (votes_for (final o1) (project_id p1)
                              (lower (address p1))) = 1) as [Hr1 Hl1].
  { subst o1. rewrite exec_cast_vote. cbn zeta.
    apply nonce_usable_find in Hn1 as [d0 ->].
    apply signature_ok_recovered in Hs1 as (recovered & -> & ->).
    apply has_voted_votes_for in Hnone as Hv. rewrite Hv.
    cbn [result final]. split; [done|].
    unfold votes_for, find_many, update_one.
    rewrite docs_set_docs_ne, docs_add_doc_eq, List.filter_app by done.
    unfold votes_for, find_many in Hnone. rewrite Hnone. cbn.
    replace (matches _ _) with true; [done|].
    symmetry. apply matches_2; [done|]. split.
    - rewrite lookup_insert_ne by done. apply lookup_insert_eq.
    - rewrite !lookup_insert_ne by done. apply lookup_insert_eq. }
  assert (has_voted (final o1) (project_id p1) (lower (address p1)) = true)
    as Hv1 by (apply has_voted_length; lia).
  assert (votes_for s1 (project_id p1) (lower (address p1))
          = votes_for (final o1) (project_id p1) (lower (address p1)))
    as Hkeep by (by apply serve_all_keeps_votes).
  assert (has_voted s1 (project_id p1) (lower (address p1)) = true) as Hv2
      by (apply has_voted_length; rewrite Hkeep; lia).
  rewrite <- Haddr in Hn2. rewrite <- Hpid, <- Haddr in Hv2.
  pose proof (duplicate_vote_run now2 p2 s1 Hn2 Hs2 Hv2) as Hrun2.
  fold o2 in Hrun2. rewrite Hrun2. cbn [result final writes].
  repeat split; [done..|]. by rewrite Hkeep.
Qed.

(** What the look-up before the insert does achieve. Served one after
    the other, requests never leave two vote records for one (project,
    address) pair: every store the service reaches that way has at most
    one. That is owed to the look-up [cast_vote] makes before its insert,
    not to the storage layer: whether or not the store enforces a unique
    index on the pair, a request served alone never runs into it. *)
Theorem sequential_votes_are_unique :
  (∀ (uniq : bool) (history : list request) (pid addr : string),
      length (votes_for (serve_all recover_message history (Mongo.empty uniq))
                        pid addr) ≤ 1)
  ∧ (∀ (s : store) (r : request),
        result (exec (handler recover_message r) s) ≠ inl DuplicateKeyError).
Proof.
  split.
  - intros uniq history pid addr.
    enough (∀ s, length (votes_for s pid addr) ≤ 1 →
                 length (votes_for (serve_all recover_message history s)
                                   pid addr) ≤ 1) as H
        by (apply H; unfold votes_for, find_many, docs; cbn;
            rewrite lookup_empty; cbn; lia).
    induction history as [|r rs IH]; intros s Hs; [done|].
    rewrite serve_all_cons. by apply IH, serve_votes_at_most_one.
  - intros s [now entropy a|p|now p]; cbn [handler].
    + rewrite exec_create_nonce. by destruct (str_truthy a).
    + by rewrite exec_create_project.
    + rewrite exec_cast_vote. cbn zeta.
      destruct (find_one "nonce" _ s); [|done].
      destruct (recover_message _ _); [done|].
      destruct (bool_decide _); [done|]. by destruct (has_voted _ _ _).
Qed.

End Protocol.

(** * The theorems at work on a concrete run *)

Lemma single_vote_per_pair_witness :
  result (exec (cast_vote Demo.recover 7%Z Demo.vote1) (Demo.issued false))
  = inr {[ "status" := VStr "ok"; "message" := VStr "Vote recorded" ]}
  ∧ length (votes_for Demo.voted "proj1" "0xabc") = 1
  ∧ result (exec (cast_vote Demo.recover 9%Z Demo.vote2) Demo.reissued)
    = inr {[ "status" := VStr "ok"; "message" := VStr "Vote already recorded" ]}
  ∧ final (exec (cast_vote Demo.recover 9%Z Demo.vote2) Demo.reissued)
    = Demo.reissued
  ∧ writes (exec (cast_vote Demo.recover 9%Z Demo.vote2) Demo.reissued) = []
  ∧ length (votes_for
              (final (exec (cast_vote Demo.recover 9%Z Demo.vote2) Demo.reissued))
              "proj1" "0xabc") = 1.
Proof.
  apply (single_vote_per_pair Demo.recover (Demo.issued false) 7%Z 9%Z
           Demo.vote1 Demo.vote2 [PostNonce 8 Demo.entropy2 "0xabc"]);
    vm_compute; reflexivity.
Defined.

Lemma invalid_or_used_nonce_witness :
  result (exec (cast_vote Demo.recover 9%Z Demo.vote1) Demo.reissued)
  = inl (HTTPException 400 "Invalid or used nonce").
Proof.
  apply (proj2 (invalid_or_used_nonce Demo.recover) false
               [PostNonce 5 Demo.entropy1 "0xABC"]
               [PostNonce 8 Demo.entropy2 "0xabc"] 7%Z 9%Z Demo.vote1 Demo.vote1);
    vm_compute; reflexivity.
Defined.

Lemma nonce_uniqueness_witness :
  length (unused_nonces
            (serve_all Demo.recover
               (issue_all [(1%Z, Demo.entropy1); (2%Z, Demo.entropy2);
                           (3%Z, Demo.entropy1)] "0xABC")
               (Mongo.empty false)) "0xabc") = 1
  ∧ length (used_nonces
              (serve_all Demo.recover
                 (issue_all [(1%Z, Demo.entropy1); (2%Z, Demo.entropy2);
                             (3%Z, Demo.entropy1)] "0xABC")
                 (Mongo.empty false)) "0xabc") = 2
  ∧ length (nonces_of
              (serve_all Demo.recover
                 (issue_all [(1%Z, Demo.entropy1); (2%Z, Demo.entropy2);
                             (3%Z, Demo.entropy1)] "0xABC")
                 (Mongo.empty false)) "0xabc") = 3.
Proof.
  refine (proj1 (nonce_uniqueness Demo.recover
                   [(1%Z, Demo.entropy1); (2%Z, Demo.entropy2);
                    (3%Z, Demo.entropy1)] "0xABC" (Mongo.empty false) _ _ _));
    [discriminate | discriminate | vm_compute; reflexivity].
Defined.

Lemma signature_over_canonical_message_witness :
  exec (cast_vote Demo.recover 7%Z Demo.forged) (Demo.issued false)
  = Outcome (inl (HTTPException 401 "Signature verification failed"))
            (Demo.issued false) []
  ∧ exec (cast_vote Demo.recover 7%Z Demo.garbled) (Demo.issued false)
    = Outcome (inl (HTTPException 400
                      "Invalid signature: Non-hexadecimal digit found"))
              (Demo.issued false) [].
Proof.
  split.
  - refine (proj1 (signature_over_canonical_message Demo.recover 7%Z Demo.forged
                     (Demo.issued false) _)).
    vm_compute; reflexivity.
  - refine (proj1 (signature_over_canonical_message Demo.recover 7%Z Demo.garbled
                     (Demo.issued false) _)).
    vm_compute; reflexivity.
Defined.

Lemma duplicate_vote_leaves_nonce_witness :
  result (exec (cast_vote Demo.recover 9%Z Demo.vote2) Demo.reissued)
  = inr {[ "status" := VStr "ok"; "message" := VStr "Vote already recorded" ]}
  ∧ final (exec (cast_vote Demo.recover 9%Z Demo.vote2) Demo.reissued)
    = Demo.reissued
  ∧ nonce_usable (final (exec (cast_vote Demo.recover 9%Z Demo.vote2) Demo.reissued))
                 "0xabc" Demo.n2 = true.
Proof.
  destruct (duplicate_vote_leaves_nonce Demo.recover 9%Z Demo.vote2 Demo.reissued)
    as (H1 & H2 & _ & _ & _ & H3); [vm_compute; reflexivity..|].
  exact (conj H1 (conj H2 H3)).
Defined.

Lemma vote_recorded_before_nonce_consumed_witness :
  ∃ s1 s2,
    exec (cast_vote Demo.recover 7%Z Demo.vote1) (Demo.issued false)
    = Outcome (inr {[ "status" := VStr "ok"; "message" := VStr "Vote recorded" ]})
              s2 [s1; s2]
    ∧ has_voted s1 "proj1" "0xabc" = true
    ∧ docs s1 "nonce" = docs (Demo.issued false) "nonce"
    ∧ nonce_usable s2 "0xabc" Demo.n1 = false.
Proof.
  destruct (vote_recorded_before_nonce_consumed Demo.recover false
              [PostNonce 5 Demo.entropy1 "0xABC"] 7%Z Demo.vote1)
    as (d & oid & s1 & s2 & _ & _ & Hrun & (Hv & Hn & _) & _);
    [vm_compute; reflexivity..|].
  exists s1, s2. split; [exact Hrun|]. split; [exact Hv|]. split; [exact Hn|].
  change (Demo.issued false)
    with (serve_all Demo.recover [PostNonce 5 Demo.entropy1 "0xABC"]
                    (Mongo.empty false)).
  replace s2
    with (final (exec (cast_vote Demo.recover 7%Z Demo.vote1)
                      (serve_all Demo.recover [PostNonce 5 Demo.entropy1 "0xABC"]
                                 (Mongo.empty false))))
    by (by rewrite Hrun).
  vm_compute; reflexivity.
Defined.

Lemma rejection_writes_nothing_witness :
  final (exec (cast_vote Demo.recover 7%Z Demo.forged) (Demo.issued false))
  = Demo.issued false
  ∧ writes (exec (cast_vote Demo.recover 7%Z Demo.forged) (Demo.issued false)) = []
  ∧ nonce_usable
      (final (exec (cast_vote Demo.recover 7%Z Demo.forged) (Demo.issued false)))
      "0xabc" Demo.n1 = true.
Proof.
  destruct (rejection_writes_nothing Demo.recover 7%Z Demo.forged
              (Demo.issued false)
              (HTTPException 401 "Signature verification failed"))
    as (H1 & H2 & [H3|[H3 _]]); [vm_compute; reflexivity|discriminate|].
  exact (conj H1 (conj H2 H3)).
Defined.

(** C9. The code falls short of the claim, and of its own comment "one
    vote per address per project" above the look-up. Two submissions of one
    vote whose operations interleave both find no vote on record. Without
    a unique index both insert: two vote records for the pair, both
    answered "Vote recorded". With a unique index the second insert is
    refused, there is one record, and [cast_vote] lets the refusal through
    as an error instead of answering "Vote already recorded" as its
    acknowledge branch does for a vote it finds. *)
Lemma racing_votes_counterexample :
  (finished (Demo.raced false).1.1
   = Some (inr {[ "status" := VStr "ok"; "message" := VStr "Vote recorded" ]})
   ∧ finished (Demo.raced false).1.2
     = Some (inr {[ "status" := VStr "ok"; "message" := VStr "Vote recorded" ]})
   ∧ length (votes_for (Demo.raced false).2 "proj1" "0xabc") = 2)
  ∧ (finished (Demo.raced true).1.1
     = Some (inr {[ "status" := VStr "ok"; "message" := VStr "Vote recorded" ]})
     ∧ finished (Demo.raced true).1.2 = Some (inl DuplicateKeyError)).
Proof. repeat split; vm_compute; reflexivity. Qed.

Lemma sequential_votes_are_unique_witness :
  length (votes_for
            (serve_all Demo.recover
               [PostNonce 5 Demo.entropy1 "0xABC"; PostVote 7 Demo.vote1;
                PostNonce 8 Demo.entropy2 "0xabc"; PostVote 9 Demo.vote2]
               (Mongo.empty true))
            "proj1" "0xabc") ≤ 1.
Proof.
  apply (proj1 (sequential_votes_are_unique Demo.recover) true
               [PostNonce 5 Demo.entropy1 "0xABC"; PostVote 7 Demo.vote1;
                PostNonce 8 Demo.entropy2 "0xabc"; PostVote 9 Demo.vote2]
               "proj1" "0xabc").
Defined.

(** * Further properties of the code *)

(** ** Strings *)

Lemma lower_char_idem (c : ascii) : lower_char (lower_char c) = lower_char c.
Proof. destruct c as [[] [] [] [] [] [] [] []]; reflexivity. Qed.

Lemma lower_idem (s : string) : lower (lower s) = lower s.
Proof.
  induction s as [|c s IH]; cbn; [done|]. by rewrite lower_char_idem, IH.
Qed.

Lemma str_truthy_lower (s : string) : str_truthy (lower s) = str_truthy s.
Proof. by destruct s. Qed.



(** ** Nonce generation *)

Lemma hex_byte_shape (b : Byte.byte) :
  ∃ c1 c2, hex_byte b = String c1 (String c2 EmptyString)
           ∧ c1 ∈ hex_alphabet ∧ c2 ∈ hex_alphabet
           ∧ unhex_byte c1 c2 = Byte.to_N b.
Proof.
  destruct b; eexists _, _; (split; [reflexivity|]);
    (split; [apply (bool_decide_unpack _); exact I|]);
    (split; [apply (bool_decide_unpack _); exact I|]); reflexivity.
Qed.

Lemma concat_cons (x : string) (l : list string) :
  String.concat "" (x :: l) = x +:+ String.concat "" l.
Proof.
  destruct l as [|y l]; cbn; [|done].
  induction x as [|c x IH]; [done|].
  change (String c x +:+ "") with (String c (x +:+ "")). by rewrite <- IH.
Qed.

Lemma two_chars_append (c1 c2 : ascii) (t : string) :
  String c1 (String c2 EmptyString) +:+ t = String c1 (String c2 t).
Proof. reflexivity. Qed.

Lemma to_N_inj (b1 b2 : Byte.byte) : Byte.to_N b1 = Byte.to_N b2 → b1 = b2.
Proof.
  intros H. pose proof (Byte.of_to_N b1) as H1. rewrite H in H1.
  rewrite Byte.of_to_N in H1. congruence.
Qed.

Lemma hex_bytes_inj (l1 l2 : list Byte.byte) :
  String.concat "" (map hex_byte l1) = String.concat "" (map hex_byte l2) →
  l1 = l2.
Proof.
  revert l2. induction l1 as [|b1 l1 IH]; intros [|b2 l2]; cbn [map].
  - done.
  - rewrite concat_cons.
    destruct (hex_byte_shape b2) as (c1 & c2 & -> & _).
    rewrite two_chars_append. discriminate.
  - rewrite concat_cons.
    destruct (hex_byte_shape b1) as (c1 & c2 & -> & _).
    rewrite two_chars_append. discriminate.
  - rewrite !concat_cons.
    destruct (hex_byte_shape b1) as (c1 & c2 & -> & _ & _ & H1).
    destruct (hex_byte_shape b2) as (d1 & d2 & -> & _ & _ & H2).
    rewrite !two_chars_append. intros [= -> -> Hrest].
    f_equal; [|by apply IH].
    apply to_N_inj. congruence.
Qed.

Lemma hex_bytes_chars (l : list Byte.byte) :
  String.length (String.concat "" (map hex_byte l)) = 2 * length l
  ∧ Forall (λ c, c ∈ hex_alphabet)
           (String.list_ascii_of_string (String.concat "" (map hex_byte l))).
Proof.
  induction l as [|b l [IHl IHc]]; cbn [map]; [by split; [|constructor]|].
  rewrite concat_cons.
  destruct (hex_byte_shape b) as (c1 & c2 & -> & H1 & H2 & _).
  rewrite two_chars_append.
  cbn [String.length String.list_ascii_of_string].
  split; [rewrite IHl; cbn; lia|].
  apply Forall_cons; split; [done|]. apply Forall_cons; split; done.
Qed.

Lemma lower_hex (s : string) :
  Forall (λ c, c ∈ hex_alphabet) (String.list_ascii_of_string s) → lower s = s.
Proof.
  induction s as [|c s IH]; [done|].
  cbn [String.list_ascii_of_string lower]. intros [Hc Hs]%Forall_cons.
  rewrite (IH Hs). f_equal. revert Hc. unfold hex_alphabet.
  cbn [String.list_ascii_of_string]. rewrite !elem_of_cons, elem_of_nil.
  intros H. repeat (destruct H as [->|H]; [reflexivity|]). done.
Qed.

(** X1. A generated nonce is written with the digits [0-9a-f] only, two
    for every byte of entropy drawn: 32 characters when the source yields
    the 16 bytes asked for. Lowercasing leaves it as it is. *)
Theorem generate_nonce_hex (entropy : list Byte.byte) :
  String.length (generate_nonce entropy) = 2 * min 16 (length entropy)
  ∧ Forall (λ c, c ∈ hex_alphabet)
           (String.list_ascii_of_string (generate_nonce entropy))
  ∧ lower (generate_nonce entropy) = generate_nonce entropy.
Proof.
  unfold generate_nonce, token_hex.
  destruct (hex_bytes_chars (take 16 entropy)) as [Hl Hc].
  split; [by rewrite Hl, length_take|]. split; [done|].
  by apply lower_hex.
Qed.

(** X2. The nonce determines the 16 bytes of entropy it was made from: two
    draws give the same nonce only when their first 16 bytes agree. *)
Theorem generate_nonce_inj (entropy1 entropy2 : list Byte.byte) :
  generate_nonce entropy1 = generate_nonce entropy2 →
  take 16 entropy1 = take 16 entropy2.
Proof. apply hex_bytes_inj. Qed.


Section Coverage.

Variable recover_message : SignableMessage → string → string + string.

(** ** Addresses *)

Lemma lower_eq_truthy (a a' : string) :
  lower a = lower a' → str_truthy a = str_truthy a'.
Proof. by destruct a, a'. Qed.

(** X3. Issuing a nonce reads its address up to letter case only: two
    spellings with the same lowercase form give the same run, the same
    answer and the same store. *)
Theorem create_nonce_ignores_case (now : Z) (entropy : list Byte.byte)
        (a a' : string) (s : store) :
  lower a = lower a' →
  exec (create_nonce now entropy a) s = exec (create_nonce now entropy a') s.
Proof.
  intros H. rewrite !exec_create_nonce.
  by rewrite (lower_eq_truthy a a' H), H.
Qed.

(** X4. Voting reads the claimed address up to letter case only: two
    payloads that differ in the spelling of the address alone give the same
    run, the same answer and the same store. *)
Theorem cast_vote_ignores_case (now : Z) (p p' : VoteCreate) (s : store) :
  project_id p = project_id p' → signature p = signature p' →
  nonce p = nonce p' → lower (address p) = lower (address p') →
  exec (cast_vote recover_message now p) s
  = exec (cast_vote recover_message now p') s.
Proof.
  intros Hp Hs Hn Ha. rewrite !exec_cast_vote. unfold vote_message.
  by rewrite Hp, Hs, Hn, Ha.
Qed.


(** ** Nonces *)

Lemma existsb_false_iff {A : Type} (f : A → bool) (l : list A) :
  existsb f l = false ↔ ∀ x, x ∈ l → f x = false.
Proof.
  split.
  - intros H x Hx. apply not_true_is_false. intros Hf.
    enough (existsb f l = true) by congruence. apply existsb_elem_of. eauto.
  - intros H. apply not_true_is_false. intros (x & Hx & Hf)%existsb_elem_of.
    rewrite (H x Hx) in Hf. discriminate.
Qed.

(** X6. Issuing a nonce for a non-empty address makes the new value the one
    and only usable nonce of that address: whatever was usable before is
    not any more, unless it is the new value itself. What is usable for
    any other address is not affected. *)
Theorem issue_invalidates_previous (now : Z) (entropy : list Byte.byte)
        (a : string) (s : store) :
  a ≠ EmptyString →
  let s' := final (exec (create_nonce now entropy a) s) in
  (∀ n, nonce_usable s' (lower a) n = true ↔ n = generate_nonce entropy)
  ∧ (∀ addr n, addr ≠ lower a →
               nonce_usable s' addr n = nonce_usable s addr n).
Proof.
  intros Ha s'. subst s'. rewrite exec_create_nonce.
  destruct a as [|c a]; [done|]. cbn [str_truthy final]. cbn zeta.
  set (addr := lower (String c a)). unfold nonce_usable.
  rewrite docs_add_doc_eq. unfold update_many. rewrite docs_set_docs_eq.
  fold (invalidate now addr). split.
  - intros n. rewrite existsb_app. cbn [existsb]. rewrite orb_false_r.
    replace (existsb _ (map _ _)) with false.
    2:{ symmetry. apply existsb_false_iff. intros d Hd.
        apply list_elem_of_fmap in Hd as (d0 & -> & _).
        apply not_true_is_false. intros (H1 & _ & H3)%matches_3; [|done..].
        assert (matches {[ "address" := VStr addr; "used" := VBool false ]}
                        (invalidate now addr d0) = true) as Hm
            by (by apply matches_2).
        by apply invalidate_unused in Hm as [? _]. }
    cbn [orb]. rewrite matches_3 by done.
    rewrite lookup_insert_ne, lookup_insert_eq by done.
    rewrite !lookup_insert_ne, lookup_insert_eq by done.
    rewrite !lookup_insert_ne, lookup_singleton_eq by done.
    split; [intros (_ & [= ->] & _); done | intros ->; done].
  - intros addr' n Hne. rewrite existsb_app. cbn [existsb].
    replace (matches _ (<["_id" := _]> _)) with false.
    2:{ symmetry. apply not_true_is_false.
        intros (H1 & _)%matches_3; [|done..].
        rewrite lookup_insert_ne, lookup_insert_eq in H1 by done. congruence. }
    rewrite !orb_false_r.
    induction (docs s "nonce") as [|d l IH]; [done|]. cbn [map existsb].
    rewrite IH. f_equal. unfold invalidate.
    destruct (matches {[ "address" := VStr addr; "used" := VBool false ]} d)
      eqn:Hm; [|done].
    apply matches_2 in Hm as [Hd _]; [|done].
    apply eq_true_iff_eq. rewrite !matches_3 by done.
    rewrite set_used_other by done. rewrite Hd.
    split; intros ([= ?] & _); done.
Qed.

Lemma filter_at_most_one {A : Type} (f : A → bool) (l : list A) :
  (∀ i j x y, l !! i = Some x → l !! j = Some y →
              f x = true → f y = true → i = j) →
  length (List.filter f l) ≤ 1.
Proof.
  induction l as [|a l IH]; intros H; cbn; [lia|].
  assert (length (List.filter f l) ≤ 1) as Hl.
  { apply IH. intros i j x y Hi Hj Hx Hy.
    specialize (H (S i) (S j) x y Hi Hj Hx Hy). lia. }
  destruct (f a) eqn:Fa; [|done]. cbn.
  destruct (List.filter f l) as [|y r] eqn:E; [cbn; lia|].
  assert (y ∈ List.filter f l) as Hy by (rewrite E; apply list_elem_of_here).
  apply list_elem_of_In, filter_In in Hy as [Hy Fy].
  apply list_elem_of_In, list_elem_of_lookup in Hy as [j Hj].
  specialize (H 0 (S j) a y eq_refl Hj Fa Fy). lia.
Qed.

(** X7. In every store the service reaches by serving requests one after
    the other, an address has at most one unused nonce record. *)
Theorem at_most_one_unused_nonce (uniq : bool) (history : list request)
        (addr : string) :
  length (unused_nonces (serve_all recover_message history (Mongo.empty uniq))
                        addr) ≤ 1.
Proof.
  destruct (nonces_ok_reachable recover_message uniq history) as (_ & _ & Ho).
  unfold unused_nonces, find_many. apply filter_at_most_one.
  intros i j x y Hi Hj Hx Hy. by apply (Ho i j x y addr).
Qed.

(** X8. In such a store, once a vote has come back "Vote recorded" the
    voter's address has no unused nonce record left: the next vote needs a
    newly issued nonce. *)
Theorem recorded_vote_spends_every_nonce
        (uniq : bool) (history : list request) (now : Z) (p : VoteCreate) :
  let s := serve_all recover_message history (Mongo.empty uniq) in
  result (exec (cast_vote recover_message now p) s)
  = inr {[ "status" := VStr "ok"; "message" := VStr "Vote recorded" ]} →
  unused_nonces (final (exec (cast_vote recover_message now p) s))
                (lower (address p)) = [].
Proof.
  intros s (Hn & Hs & Hv)%vote_recorded_inv.
  pose proof (nonces_ok_reachable recover_message uniq history) as Hok.
  fold s in Hok. apply nonce_usable_find in Hn as [d0 Hd0].
  destruct (fresh_vote_run recover_message now p s d0 Hok Hd0 Hs Hv)
    as (i & k & s1 & s2 & Hi & Hk & -> & Hn1 & Hv1 & Hv2 & Hn2).
  cbn [final]. unfold unused_nonces, find_many.
  apply filter_nil_existsb, existsb_false_iff.
  intros d [j Hj]%list_elem_of_lookup. apply not_true_is_false. intros Hm.
  rewrite Hn2 in Hj.
  assert (i < length (docs s "nonce")) as Hlen by (by eapply lookup_lt_Some).
  destruct (decide (j = i)) as [->|Hne].
  - rewrite list_lookup_insert_eq in Hj by done. injection Hj as <-.
    apply matches_2 in Hm as [_ Hm]; [|done].
    rewrite set_used_lookup in Hm. discriminate.
  - rewrite list_lookup_insert_ne in Hj by done.
    pose proof Hd0 as (_ & _ & Hm0 & _)%find_first.
    apply matches_3 in Hm0 as (Ha0 & _ & Hu0); [|done..].
    destruct Hok as (_ & _ & Hone). destruct Hne.
    apply (Hone j i d d0 (lower (address p)) Hj Hi); [done|].
    by apply matches_2.
Qed.


(** ** What requests never undo *)

Lemma touched_aged (d d' : doc) : touched d d' → aged d d'.
Proof.
  intros [->|[now ->]]; [by repeat split; try left|].
  repeat split; try (by apply set_used_other). right. apply set_used_lookup.
Qed.

Lemma aged_trans (d1 d2 d3 : doc) : aged d1 d2 → aged d2 d3 → aged d1 d3.
Proof.
  intros (H1 & H2 & H3 & H4) (K1 & K2 & K3 & K4).
  repeat split; try congruence.
  destruct K4 as [K4|K4]; [|by right]. rewrite K4. exact H4.
Qed.

Lemma serve_nonce_aged (r : request) (s : store) (i : nat) (d : doc) :
  docs s "nonce" !! i = Some d →
  ∃ d', docs (serve recover_message s r) "nonce" !! i = Some d' ∧ aged d d'.
Proof.
  intros Hi.
  destruct (serve_nonce_docs recover_message r s)
    as [[Ht _]|(now & e & a & -> & Hd & _)].
  - destruct (Forall2_lookup_l _ _ _ _ _ Ht Hi) as (d' & Hd' & Hdd).
    exists d'. split; [done|]. by apply touched_aged.
  - pose proof (invalidate_touched now (lower a) (docs s "nonce")) as Ht.
    destruct (Forall2_lookup_l _ _ _ _ _ Ht Hi) as (d' & Hd' & Hdd).
    exists d'. split; [|by apply touched_aged].
    rewrite Hd. by apply lookup_app_l_Some.
Qed.

Lemma serve_votes_prefix (r : request) (s : store) :
  docs s "vote" `prefix_of` docs (serve recover_message s r) "vote".
Proof.
  destruct (serve_vote_docs recover_message r s)
    as [->|(now & p & _ & _ & ->)]; [done|]. by apply prefix_app_r.
Qed.

(** X9. The vote collection only ever grows at its end: whatever requests
    are served, the vote records there were are still there, unchanged and
    in the same order, in front of the new ones. *)
Theorem votes_are_append_only (rs : list request) (s : store) :
  docs s "vote" `prefix_of` docs (serve_all recover_message rs s) "vote".
Proof.
  revert s. induction rs as [|r rs IH]; intros s; [done|].
  rewrite serve_all_cons. etrans; [apply (serve_votes_prefix r)|apply IH].
Qed.

(** X10. No request deletes a nonce record or takes back its use: the
    record at a position keeps its place, its [_id], its address and its
    nonce value, and once [used] is [true] it stays [true]. *)
Theorem nonce_records_only_age (rs : list request) (s : store) (i : nat)
        (d : doc) :
  docs s "nonce" !! i = Some d →
  ∃ d', docs (serve_all recover_message rs s) "nonce" !! i = Some d'
        ∧ d' !! "_id" = d !! "_id" ∧ d' !! "address" = d !! "address"
        ∧ d' !! "nonce" = d !! "nonce"
        ∧ (d !! "used" = Some (VBool true) → d' !! "used" = Some (VBool true)).
Proof.
  intros Hi.
  enough (∃ d', docs (serve_all recover_message rs s) "nonce" !! i = Some d'
                ∧ aged d d') as (d' & Hd' & H1 & H2 & H3 & H4).
  { exists d'. repeat split; try done. intros Hu.
    destruct H4 as [H4|H4]; congruence. }
  revert s d Hi. induction rs as [|r rs IH]; intros s d Hi.
  - exists d. split; [done|]. by repeat split; try left.
  - rewrite serve_all_cons.
    destruct (serve_nonce_aged r s i d Hi) as (d1 & Hd1 & Ha1).
    destruct (IH _ _ Hd1) as (d2 & Hd2 & Ha2).
    exists d2. split; [done|]. by eapply aged_trans.
Qed.

(** ** Every vote has burnt a nonce *)

Lemma cast_vote_cases (now : Z) (p : VoteCreate) (s : store) :
  final (exec (cast_vote recover_message now p) s) = s
  ∨ result (exec (cast_vote recover_message now p) s)
    = inr {[ "status" := VStr "ok"; "message" := VStr "Vote recorded" ]}.
Proof.
  rewrite exec_cast_vote. cbn zeta.
  destruct (find_one "nonce" _ s); [|by left].
  destruct (recover_message _ _); [by left|].
  destruct (bool_decide _); [by left|].
  destruct (has_voted _ _ _); [by left|by right].
Qed.

Lemma serve_backed (r : request) (s : store) :
  nonces_ok s → backed s → backed (serve recover_message s r).
Proof.
  intros Hok Hb v Hv.
  assert (v ∈ docs s "vote" →
          ∃ d, d ∈ docs (serve recover_message s r) "nonce"
               ∧ d !! "address" = v !! "address"
               ∧ d !! "nonce" = v !! "nonce"
               ∧ d !! "used" = Some (VBool true)) as Hold.
  { intros (d & [i Hi]%list_elem_of_lookup & Ha & Hn & Hu)%Hb.
    destruct (serve_nonce_aged r s i d Hi) as (d' & Hd' & H1 & H2 & H3 & H4).
    exists d'. split; [by eapply list_elem_of_lookup_2|].
    repeat split; try congruence. destruct H4; congruence. }
  destruct (serve_vote_docs recover_message r s)
    as [Hsame|(now & p & -> & Hnv & Hnew)].
  { rewrite Hsame in Hv. by apply Hold. }
  rewrite Hnew in Hv. apply elem_of_app in Hv as [Hv|Hv]; [by apply Hold|].
  apply list_elem_of_singleton in Hv as ->.
  unfold serve in *. cbn [handler] in *.
  destruct (cast_vote_cases now p s) as [Hs|Hrec].
  { rewrite Hs in Hnew. apply (f_equal length) in Hnew.
    rewrite length_app in Hnew. cbn in Hnew. lia. }
  apply vote_recorded_inv in Hrec as (Hn & Hsig & _).
  apply nonce_usable_find in Hn as [d0 Hd0].
  destruct (fresh_vote_run recover_message now p s d0 Hok Hd0 Hsig Hnv)
    as (i & k & s1 & s2 & Hi & Hk & -> & _ & _ & _ & Hn2).
  cbn [final]. rewrite Hn2.
  pose proof Hd0 as (_ & _ & Hm & _)%find_first.
  apply matches_3 in Hm as (Ha0 & Hn0 & _); [|done..].
  exists (apply_set {[ "used" := VBool true; "updated_at" := VTime now ]} d0).
  split.
  { apply list_elem_of_lookup. exists i. apply list_lookup_insert_eq.
    by eapply lookup_lt_Some. }
  rewrite !set_used_other by done. rewrite set_used_lookup.
  split; [|split; [|done]].
  - rewrite Ha0. symmetry. rewrite !lookup_insert_ne by done.
    apply lookup_insert_eq.
  - rewrite Hn0. symmetry. rewrite !lookup_insert_ne by done.
    apply lookup_singleton_eq.
Qed.

(** X11. In every store the service reaches by serving requests one after
    the other, each vote record has a nonce record with its address and its
    nonce value that is marked used. *)
Theorem every_vote_burnt_a_nonce (uniq : bool) (history : list request)
        (v : doc) :
  let s := serve_all recover_message history (Mongo.empty uniq) in
  v ∈ docs s "vote" →
  ∃ d, d ∈ docs s "nonce" ∧ d !! "address" = v !! "address"
       ∧ d !! "nonce" = v !! "nonce" ∧ d !! "used" = Some (VBool true).
Proof.
  intros s. subst s. revert v.
  enough (∀ s, nonces_ok s → backed s →
               backed (serve_all recover_message history s)) as H.
  { apply H.
    - apply (nonces_ok_reachable recover_message uniq []).
    - intros v Hv. by apply elem_of_nil in Hv. }
  induction history as [|r rs IH]; intros s Hok Hb; [done|].
  rewrite serve_all_cons. apply IH; [by apply nonces_ok_serve|].
  by apply serve_backed.
Qed.


(** ** The shape of what is stored *)

Lemma touched_nonce_shape (d d' : doc) :
  touched d d' → nonce_shape d → nonce_shape d'.
Proof.
  intros Ht (a & n & b & Ha & Hl & Hn & Hu).
  destruct (touched_aged _ _ Ht) as (_ & Ka & Kn & Ku).
  exists a, n. destruct Ku as [Ku|Ku].
  - exists b. repeat split; congruence.
  - exists true. repeat split; congruence.
Qed.

Lemma serve_shapes (r : request) (s : store) :
  Forall nonce_shape (docs s "nonce") → Forall vote_shape (docs s "vote") →
  Forall nonce_shape (docs (serve recover_message s r) "nonce")
  ∧ Forall vote_shape (docs (serve recover_message s r) "vote").
Proof.
  intros Hn Hv. split.
  - assert (∀ l', Forall2 touched (docs s "nonce") l' → Forall nonce_shape l')
      as Hkeep.
    { intros l' Ht. apply Forall_lookup. intros i d' Hi.
      destruct (touched_at _ _ _ _ Ht Hi) as (d & Hd & Hdd).
      apply (touched_nonce_shape d d' Hdd).
      by apply (proj1 (Forall_lookup _ _) Hn i). }
    destruct (serve_nonce_docs recover_message r s)
      as [[Ht _]|(now & e & a & -> & -> & _)]; [by apply Hkeep|].
    apply Forall_app. split; [apply Hkeep, invalidate_touched|].
    apply Forall_singleton. exists (lower a), (generate_nonce e), false.
    rewrite lookup_insert_ne, lookup_insert_eq by done.
    rewrite !lookup_insert_ne, lookup_insert_eq by done.
    rewrite !lookup_insert_ne, lookup_singleton_eq by done.
    repeat split. apply lower_idem.
  - destruct (serve_vote_docs recover_message r s)
      as [->|(now & p & -> & _ & ->)]; [done|].
    apply Forall_app. split; [done|]. apply Forall_singleton.
    exists (project_id p), (lower (address p)), (signature p), (nonce p).
    rewrite lookup_insert_ne, lookup_insert_eq by done.
    rewrite !lookup_insert_ne, lookup_insert_eq by done.
    rewrite !lookup_insert_ne, lookup_insert_eq by done.
    rewrite !lookup_insert_ne, lookup_singleton_eq by done.
    repeat split. apply lower_idem.
Qed.

(** X12. In every store the service reaches, each nonce record holds a
    string address, a string nonce and a boolean [used], each vote record
    holds string [project_id], address, signature and nonce, and every
    stored address is in lowercase. *)
Theorem stored_records_are_normalised (uniq : bool) (history : list request) :
  let s := serve_all recover_message history (Mongo.empty uniq) in
  (∀ d, d ∈ docs s "nonce" →
        ∃ a n b, d !! "address" = Some (VStr a) ∧ lower a = a
                 ∧ d !! "nonce" = Some (VStr n)
                 ∧ d !! "used" = Some (VBool b))
  ∧ (∀ v, v ∈ docs s "vote" →
          ∃ pid a sg n, v !! "project_id" = Some (VStr pid)
                        ∧ v !! "address" = Some (VStr a) ∧ lower a = a
                        ∧ v !! "signature" = Some (VStr sg)
                        ∧ v !! "nonce" = Some (VStr n)).
Proof.
  intros s. subst s.
  enough (∀ s, Forall nonce_shape (docs s "nonce") →
               Forall vote_shape (docs s "vote") →
               Forall nonce_shape
                      (docs (serve_all recover_message history s) "nonce")
               ∧ Forall vote_shape
                        (docs (serve_all recover_message history s) "vote"))
    as H.
  { destruct (H (Mongo.empty uniq)) as [Hn Hv]; [by constructor..|].
    split; intros d Hd.
    - by apply (proj1 (Forall_forall _ _) Hn).
    - by apply (proj1 (Forall_forall _ _) Hv). }
  induction history as [|r rs IH]; intros s Hn Hv; [done|].
  rewrite serve_all_cons.
  destruct (serve_shapes r s Hn Hv) as [Hn' Hv']. by apply IH.
Qed.

(** ** Object ids *)

Lemma serve_docs_any (r : request) (s : store) (c : string) :
  ∃ l', Forall2 touched (docs s c) l'
        ∧ ((docs (serve recover_message s r) c = l'
            ∧ next_oid s ≤ next_oid (serve recover_message s r))
           ∨ ∃ d, docs (serve recover_message s r) c
                  = l' ++ [<["_id" := VOid (next_oid s)]> d]
                  ∧ next_oid (serve recover_message s r) = S (next_oid s)).
Proof.
  destruct (decide (c = "nonce")) as [->|Hnonce].
  { destruct (serve_nonce_docs recover_message r s)
      as [[Ht Hle]|(now & e & a & -> & Hd & Hn)].
    - eexists. split; [exact Ht|]. by left.
    - eexists. split; [apply (invalidate_touched now (lower a))|].
      right. eauto. }
  destruct r as [now entropy a|p|now p]; unfold serve; cbn [handler].
  - rewrite exec_create_nonce. exists (docs s c). split; [apply touched_refl|].
    left. destruct (str_truthy a); cbn [final]; cbn zeta; [|done].
    rewrite docs_add_doc_ne by done. unfold update_many.
    rewrite docs_set_docs_ne by done. split; [done|cbn; lia].
  - rewrite exec_create_project. cbn [final]. cbn zeta.
    exists (docs s c). split; [apply touched_refl|].
    destruct (decide (c = "project")) as [->|Hp].
    + right. eexists. by rewrite docs_add_doc_eq.
    + left. rewrite docs_add_doc_ne by done. split; [done|cbn; lia].
  - rewrite exec_cast_vote. cbn zeta.
    exists (docs s c). split; [apply touched_refl|].
    destruct (find_one "nonce" _ s) as [d|]; [|by left].
    destruct (recover_message _ _) as [e|recovered]; [by left|].
    destruct (bool_decide _); [by left|].
    destruct (has_voted _ _ _); [by left|]. cbn [final].
    unfold update_one. rewrite docs_set_docs_ne by done.
    destruct (decide (c = "vote")) as [->|Hv].
    + right. eexists. by rewrite docs_add_doc_eq.
    + left. rewrite docs_add_doc_ne by done. split; [done|cbn; lia].
Qed.

Lemma snoc_ids (k : nat) (l : list doc) (d : doc) :
  ids_below k l → ids_unique l →
  ids_below (S k) (l ++ [<["_id" := VOid k]> d])
  ∧ ids_unique (l ++ [<["_id" := VOid k]> d]).
Proof.
  intros Hb Hu. split.
  - intros x [Hx|Hx]%elem_of_app.
    + destruct (Hb x Hx) as (k' & ? & ?). exists k'. split; [done|lia].
    + apply list_elem_of_singleton in Hx as ->. exists k.
      rewrite lookup_insert_eq. split; [done|lia].
  - intros i j x y Hi Hj Heq.
    apply snoc_lookup_cases in Hi as [[Hil Hi]|[-> ->]];
      apply snoc_lookup_cases in Hj as [[Hjl Hj]|[-> ->]].
    + by apply (Hu i j x y).
    + destruct (Hb x) as (k' & Hk' & Hlt); [by eapply list_elem_of_lookup_2|].
      rewrite lookup_insert_eq, Hk' in Heq. injection Heq as ->. lia.
    + destruct (Hb y) as (k' & Hk' & Hlt); [by eapply list_elem_of_lookup_2|].
      rewrite lookup_insert_eq, Hk' in Heq. injection Heq as <-. lia.
    + done.
Qed.

Lemma ids_ok_serve (r : request) (s : store) :
  ids_ok s → ids_ok (serve recover_message s r).
Proof.
  intros Hs c. destruct (Hs c) as [Hb Hu].
  destruct (serve_docs_any r s c) as (l' & Ht & [[-> Hle]|(d & -> & ->)]).
  - split; [by apply (touched_ids_below _ _ _ _ Ht Hle)|].
    by apply (touched_ids_unique _ _ Ht).
  - apply snoc_ids; [by apply (touched_ids_below _ _ _ _ Ht (le_n _))|].
    by apply (touched_ids_unique _ _ Ht).
Qed.

Lemma ids_ok_reachable (uniq : bool) (history : list request) :
  ids_ok (serve_all recover_message history (Mongo.empty uniq)).
Proof.
  enough (∀ s, ids_ok s → ids_ok (serve_all recover_message history s)) as H.
  { apply H. intros c. split.
    - intros d Hd. unfold docs in Hd. cbn in Hd. rewrite lookup_empty in Hd.
      by apply elem_of_nil in Hd.
    - intros i j d d' Hi. unfold docs in Hi. cbn in Hi.
      rewrite lookup_empty in Hi. done. }
  induction history as [|r rs IH]; intros s Hs; [done|].
  rewrite serve_all_cons. by apply IH, ids_ok_serve.
Qed.

(** ** Projects *)

(** X13. Creating a project never fails. It adds one record to the project
    collection, made of the five fields of the payload (the absent ones as
    null), and leaves nonces and votes alone; the id it answers with is the
    one under which that record is then found. *)
Theorem create_project_round_trip (uniq : bool) (history : list request)
        (p : ProjectCreate) :
  let s := serve_all recover_message history (Mongo.empty uniq) in
  let o := exec (create_project p) s in
  ∃ oid,
    result o = inr {[ "id" := oid; "message" := VStr "Project created" ]}
    ∧ find_one "project" {[ "_id" := oid ]} (final o)
      = Some {[ "_id" := oid;
                "name" := VStr (name p);
                "description" := opt_str (description p);
                "website" := opt_str (website p);
                "image" := opt_str (image p);
                "chain" := opt_str (chain p) ]}
    ∧ length (docs (final o) "project") = S (length (docs s "project"))
    ∧ docs (final o) "nonce" = docs s "nonce"
    ∧ docs (final o) "vote" = docs s "vote".
Proof.
  intros s o. subst o. rewrite exec_create_project. cbn [result final].
  cbn zeta. exists (VOid (next_oid s)). split; [done|].
  rewrite (docs_add_doc_ne "project" "nonce"),
    (docs_add_doc_ne "project" "vote") by done.
  unfold find_one. rewrite docs_add_doc_eq, length_app. cbn [length].
  split; [|split; [lia|done]].
  destruct (ids_ok_reachable uniq history "project") as [Hb _]. fold s in Hb.
  induction (docs s "project") as [|d l IH]; cbn [app find].
  - replace (matches _ _) with true; [done|].
    symmetry. apply matches_1, lookup_insert_eq.
  - replace (matches _ d) with false.
    + apply IH. intros x Hx. apply Hb. by apply list_elem_of_further.
    + symmetry. apply not_true_is_false. intros Hm%matches_1.
      destruct (Hb d) as (k & Hk & Hlt); [apply list_elem_of_here|].
      rewrite Hk in Hm. injection Hm as ->. lia.
Qed.


(** ** Counting votes *)

Lemma project_filter_new (pid : string) (k : nat) (p : VoteCreate) :
  matches {[ "project_id" := VStr pid ]}
          (<["_id" := VOid k]>
             {[ "project_id" := VStr (project_id p);
                "address" := VStr (lower (address p));
                "signature" := VStr (signature p);
                "nonce" := VStr (nonce p) ]})
  = bool_decide (pid = project_id p).
Proof.
  apply eq_true_iff_eq. rewrite matches_1, bool_decide_eq_true.
  rewrite lookup_insert_ne, lookup_insert_eq by done.
  split; [by intros [= ->] | by intros ->].
Qed.

(** X14. [project_votes] reports the number of vote records of the
    project, and one [cast_vote] moves that number by exactly this much:
    up by one for the project voted for when the answer is "Vote
    recorded", not at all for any other project or any other answer. *)
Theorem cast_vote_moves_one_count (now : Z) (p : VoteCreate) (s : store)
        (pid : string) :
  let o := exec (cast_vote recover_message now p) s in
  project_votes pid s
  = {[ "project_id" := Stored (VStr pid);
       "votes" := Count (vote_count s pid) ]}
  ∧ vote_count (final o) pid
    = vote_count s pid
      + (if bool_decide
              (pid = project_id p
               ∧ result o = inr {[ "status" := VStr "ok";
                                   "message" := VStr "Vote recorded" ]})
         then 1 else 0).
Proof.
  intros o. subst o. split; [reflexivity|].
  rewrite exec_cast_vote. cbn zeta.
  assert (∀ (e : exn) (x : nat),
             x + (if bool_decide
                       (pid = project_id p
                        ∧ @inl exn doc e
                          = inr {[ "status" := VStr "ok";
                                   "message" := VStr "Vote recorded" ]})
                  then 1 else 0) = x) as Herr.
  { intros e x. rewrite bool_decide_eq_false_2; [lia|]. by intros [_ ?]. }
  destruct (find_one "nonce" _ s) as [d|];
    [|cbn [result final]; by rewrite Herr].
  destruct (recover_message _ _) as [e|recovered];
    [cbn [result final]; by rewrite Herr|].
  destruct (bool_decide (lower recovered ≠ _));
    [cbn [result final]; by rewrite Herr|].
  destruct (has_voted _ _ _); cbn [result final].
  - rewrite bool_decide_eq_false_2; [lia|].
    intros [_ H]. destruct recorded_not_already. congruence.
  - unfold vote_count, get_documents, find_many, update_one.
    rewrite docs_set_docs_ne, docs_add_doc_eq by done.
    rewrite List.filter_app, length_app. f_equal. cbn [List.filter].
    rewrite project_filter_new.
    destruct (decide (pid = project_id p)) as [->|Hne].
    + by rewrite !bool_decide_eq_true_2.
    + rewrite (bool_decide_eq_false_2 _ Hne).
      rewrite bool_decide_eq_false_2; [done|]. by intros [? _].
Qed.

Lemma serve_voters_distinct (r : request) (s : store) :
  voters_distinct s → voters_distinct (serve recover_message s r).
Proof.
  intros Hs pid. specialize (Hs pid).
  unfold get_documents, find_many in *.
  destruct (serve_vote_docs recover_message r s)
    as [->|(now & p & -> & Hp & ->)]; [done|].
  rewrite List.filter_app. cbn [List.filter]. rewrite project_filter_new.
  destruct (decide (pid = project_id p)) as [->|Hne].
  2:{ rewrite (bool_decide_eq_false_2 _ Hne). by rewrite app_nil_r. }
  rewrite bool_decide_eq_true_2 by done. rewrite map_app.
  apply NoDup_app. split; [done|]. split; [|apply NoDup_singleton].
  intros a Ha Hin. cbn in Hin. apply list_elem_of_singleton in Hin as ->.
  apply list_elem_of_fmap in Ha as (v & Hv & Hin).
  apply list_elem_of_In, filter_In in Hin as [Hin Hm].
  apply list_elem_of_In in Hin. apply matches_1 in Hm.
  unfold doc_get in Hv.
  rewrite !lookup_insert_ne, lookup_insert_eq in Hv by done. cbn in Hv.
  enough (has_voted s (project_id p) (lower (address p)) = true)
    by congruence.
  apply has_voted_spec. exists v. split; [done|]. split; [done|].
  destruct (v !! "address") as [x|]; cbn in Hv; congruence.
Qed.

(** X15. In every store the service reaches by serving requests one after
    the other, the votes counted for a project come from pairwise distinct
    addresses: the number [project_votes] reports is a number of voters. *)
Theorem project_votes_counts_voters (uniq : bool) (history : list request)
        (pid : string) :
  NoDup (map (doc_get "address")
             (get_documents "vote" {[ "project_id" := VStr pid ]}
                (serve_all recover_message history (Mongo.empty uniq)))).
Proof.
  revert pid.
  enough (∀ s, voters_distinct s →
               voters_distinct (serve_all recover_message history s)) as H.
  { apply H. intros pid. unfold get_documents, find_many, docs. cbn.
    rewrite lookup_empty. constructor. }
  induction history as [|r rs IH]; intros s Hs; [done|].
  rewrite serve_all_cons. by apply IH, serve_voters_distinct.
Qed.

(** X16. [cast_vote] never consults the project collection: two stores
    with the same nonce records and the same vote records get the same
    answer, so a vote for a project id that no project record carries is
    treated like any other. *)
Theorem cast_vote_ignores_projects (now : Z) (p : VoteCreate) (s s' : store) :
  docs s "nonce" = docs s' "nonce" → docs s "vote" = docs s' "vote" →
  result (exec (cast_vote recover_message now p) s)
  = result (exec (cast_vote recover_message now p) s').
Proof.
  intros Hn Hv. rewrite !exec_cast_vote. cbn zeta.
  unfold find_one, has_voted. rewrite Hn, Hv.
  destruct (find _ (docs s' "nonce")); [|done].
  destruct (recover_message _ _); [done|].
  destruct (bool_decide _); [done|]. by destruct (existsb _ _).
Qed.

(** X17. A nonce just issued is good for a vote: right after the
    issue-nonce call for a non-empty address, a correctly signed vote of
    that address carrying the issued value is accepted, as "Vote recorded"
    when the pair had no vote and as "Vote already recorded" when it
    had. *)
Theorem issued_nonce_is_accepted (now now' : Z) (entropy : list Byte.byte)
        (a : string) (p : VoteCreate) (s : store) :
  a ≠ EmptyString →
  lower (address p) = lower a → nonce p = generate_nonce entropy →
  signature_ok recover_message p = true →
  result (exec (cast_vote recover_message now' p)
               (final (exec (create_nonce now entropy a) s)))
  = inr {[ "status" := VStr "ok";
           "message" := VStr (if has_voted s (project_id p) (lower a)
                              then "Vote already recorded"
                              else "Vote recorded") ]}.
Proof.
  intros Ha Haddr Hnonce Hsig.
  set (s' := final (exec (create_nonce now entropy a) s)).
  assert (docs s' "vote" = docs s "vote") as Hvotes.
  { subst s'. rewrite exec_create_nonce. destruct (str_truthy a); [|done].
    cbn [final]. cbn zeta. rewrite docs_add_doc_ne by done.
    unfold update_many. by rewrite docs_set_docs_ne. }
  assert (nonce_usable s' (lower (address p)) (nonce p) = true) as Hn.
  { subst s'. rewrite exec_create_nonce. destruct a as [|c a]; [done|].
    cbn [str_truthy final]. cbn zeta. rewrite Haddr, Hnonce.
    unfold nonce_usable. rewrite docs_add_doc_eq, existsb_app. cbn [existsb].
    replace (matches _ (<["_id" := _]> _)) with true;
      [by rewrite orb_true_r|].
    symmetry. apply matches_3; [done..|].
    rewrite lookup_insert_ne, lookup_insert_eq by done.
    rewrite !lookup_insert_ne, lookup_insert_eq by done.
    by rewrite !lookup_insert_ne, lookup_singleton_eq by done. }
  rewrite exec_cast_vote. cbn zeta.
  apply nonce_usable_find in Hn as [d ->].
  apply signature_ok_recovered in Hsig as (recovered & -> & ->).
  unfold has_voted. rewrite Hvotes, Haddr.
  by destruct (existsb _ _).
Qed.


(** ** Listing projects *)

Variable py_str : value → string.

Lemma get_documents_all (c : string) (s : store) :
  get_documents c ∅ s = docs s c.
Proof.
  unfold get_documents, find_many.
  induction (docs s c) as [|d l IH]; cbn; [done|].
  replace (matches ∅ d) with true; [by rewrite IH|].
  symmetry. apply bool_decide_eq_true, map_empty_subseteq.
Qed.

Lemma tally_from (votes : list doc) (acc : gmap value nat) (k : value) :
  default 0 (foldl tally_vote acc votes !! k)
  = default 0 (acc !! k)
    + length (List.filter (λ v, bool_decide (doc_get "project_id" v = k))
                          votes).
Proof.
  revert acc. induction votes as [|v votes IH]; intros acc; [cbn; lia|].
  cbn [foldl List.filter]. rewrite IH. unfold tally_vote.
  destruct (decide (doc_get "project_id" v = k)) as [->|Hne].
  - rewrite lookup_insert_eq, bool_decide_eq_true_2 by done. cbn. lia.
  - rewrite lookup_insert_ne by done.
    by rewrite (bool_decide_eq_false_2 _ Hne).
Qed.

Lemma tally_vote_count (s : store) (pid : string) :
  default 0 (tally (docs s "vote") !! VStr pid) = vote_count s pid.
Proof.
  unfold tally. rewrite tally_from, lookup_empty. cbn [default].
  rewrite Nat.add_0_l. unfold vote_count, get_documents, find_many. f_equal.
  induction (docs s "vote") as [|v l IH]; cbn [List.filter]; [done|].
  rewrite IH. replace (matches _ v)
    with (bool_decide (doc_get "project_id" v = VStr pid)); [done|].
  apply eq_true_iff_eq. rewrite bool_decide_eq_true, matches_1.
  unfold doc_get. destruct (v !! "project_id") as [x|]; cbn; [|done].
  split; congruence.
Qed.

Lemma relabel_all_inr (ps : list doc) (entries : list (gmap string jvalue)) :
  relabel_all py_str ps = inr entries →
  Forall2 (λ p e, relabel py_str p = inr e) ps entries.
Proof.
  revert entries. induction ps as [|p ps IH]; intros entries; cbn.
  - intros [= <-]. constructor.
  - destruct (relabel py_str p) as [e|p'] eqn:Hp; [discriminate|].
    destruct (relabel_all py_str ps) as [e|r'] eqn:Hr; [discriminate|].
    intros [= <-]. constructor; [done|]. by apply IH.
Qed.

Lemma relabel_all_ok (ps : list doc) :
  (∀ p, p ∈ ps → is_Some (p !! "_id")) →
  ∃ entries, relabel_all py_str ps = inr entries.
Proof.
  induction ps as [|p ps IH]; intros H; cbn; [eauto|].
  destruct (H p) as [oid Hoid]; [apply list_elem_of_here|].
  unfold relabel at 1. rewrite Hoid.
  destruct IH as [entries ->]; [|eauto].
  intros x Hx. apply H. by apply list_elem_of_further.
Qed.

Lemma relabel_all_err (ps : list doc) (e : lookup_error) :
  relabel_all py_str ps = inl e →
  e = KeyError "_id" ∧ ∃ p, p ∈ ps ∧ p !! "_id" = None.
Proof.
  induction ps as [|p ps IH]; cbn; [discriminate|].
  unfold relabel at 1. destruct (p !! "_id") as [oid|] eqn:Hp.
  - destruct (relabel_all py_str ps) as [e'|r'] eqn:Hr; [|discriminate].
    intros [= <-]. destruct (IH eq_refl) as (-> & q & Hq & Hnone).
    split; [done|]. exists q. split; [by apply list_elem_of_further|done].
  - intros [= <-]. split; [done|]. exists p.
    split; [apply list_elem_of_here|done].
Qed.

(** X18. What [list_projects] answers for a project agrees with what
    [project_votes] answers for its id: there is one entry per project
    record, in order; the entry has the record's fields, [id] with the
    text of the record's [_id] in place of [_id], and under [votes] the
    very count [project_votes] gives for that id. It fails, with a
    [KeyError] on ["_id"], only over a project record without [_id]. *)
Theorem list_projects_agrees_with_project_votes (s : store) :
  match list_projects py_str s with
  | inr entries =>
      length entries = length (docs s "project")
      ∧ ∀ i e, entries !! i = Some e →
          ∃ p oid,
            docs s "project" !! i = Some p ∧ p !! "_id" = Some oid
            ∧ e !! "id" = Some (Stored (VStr (py_str oid)))
            ∧ e !! "votes" = project_votes (py_str oid) s !! "votes"
            ∧ e !! "_id" = None
            ∧ ∀ k, k ≠ "_id" → k ≠ "id" → k ≠ "votes" →
                   e !! k = Stored <$> p !! k
  | inl err =>
      err = KeyError "_id"
      ∧ ∃ p, p ∈ docs s "project" ∧ p !! "_id" = None
  end.
Proof.
  unfold list_projects.
  change (collection_name ProjectSchema) with "project".
  change (collection_name VoteSchema) with "vote".
  rewrite !get_documents_all.
  destruct (relabel_all py_str (docs s "project")) as [err|projects] eqn:Hr.
  { by apply relabel_all_err. }
  apply relabel_all_inr in Hr. cbn zeta.
  split; [rewrite length_map; symmetry; by eapply Forall2_length|].
  intros i e Hi. apply list_lookup_fmap_Some in Hi as (e0 & -> & Hi).
  destruct (Forall2_lookup_r _ _ _ _ _ Hr Hi) as (p & Hp & Hrel).
  unfold relabel in Hrel. destruct (p !! "_id") as [oid|] eqn:Hoid;
    [|discriminate]. injection Hrel as <-.
  exists p, oid. split; [done|]. split; [done|]. unfold with_votes.
  rewrite lookup_insert_eq. split.
  { rewrite lookup_insert_ne by done. apply lookup_insert_eq. }
  split.
  { rewrite lookup_insert_eq. unfold project_votes.
    rewrite lookup_insert_ne, lookup_singleton_eq by done.
    by rewrite tally_vote_count. }
  split.
  { rewrite !lookup_insert_ne by done.
    by rewrite lookup_fmap, lookup_delete_eq. }
  intros k H1 H2 H3. rewrite !lookup_insert_ne by done.
  by rewrite lookup_fmap, lookup_delete_ne.
Qed.

(** X19. In every store the service reaches, [list_projects] answers: no
    project record lacks the [_id] it pops. *)
Theorem list_projects_answers (uniq : bool) (history : list request) :
  ∃ entries,
    list_projects py_str (serve_all recover_message history (Mongo.empty uniq))
    = inr entries.
Proof.
  unfold list_projects.
  change (collection_name ProjectSchema) with "project".
  rewrite get_documents_all.
  destruct (relabel_all_ok
              (docs (serve_all recover_message history (Mongo.empty uniq))
                    "project")) as [entries ->]; [|eauto].
  intros p Hp.
  destruct (ids_ok_reachable uniq history "project") as [Hb _].
  destruct (Hb p Hp) as (k & -> & _). eauto.
Qed.

End Coverage.

(** * The further properties at work on a concrete run *)

Lemma generate_nonce_inj_witness :
  take 16 (Demo.entropy1 ++ [Byte.x00]) = take 16 Demo.entropy1.
Proof.
  apply (generate_nonce_inj (Demo.entropy1 ++ [Byte.x00]) Demo.entropy1).
  vm_compute; reflexivity.
Defined.

Lemma create_nonce_ignores_case_witness :
  exec (create_nonce 5 Demo.entropy1 "0xABC") (Mongo.empty false)
  = exec (create_nonce 5 Demo.entropy1 "0xabc") (Mongo.empty false).
Proof.
  apply (create_nonce_ignores_case 5%Z Demo.entropy1 "0xABC" "0xabc"
                                   (Mongo.empty false)).
  vm_compute; reflexivity.
Defined.

Lemma cast_vote_ignores_case_witness :
  exec (cast_vote Demo.recover 7 Demo.vote1) (Demo.issued false)
  = exec (cast_vote Demo.recover 7
            (Demo.ballot "proj1" "0xABC" "0xAbC" Demo.n1)) (Demo.issued false).
Proof.
  apply (cast_vote_ignores_case Demo.recover 7%Z Demo.vote1
           (Demo.ballot "proj1" "0xABC" "0xAbC" Demo.n1) (Demo.issued false));
    vm_compute; reflexivity.
Defined.


Lemma issue_invalidates_previous_witness :
  nonce_usable (final (exec (create_nonce 8 Demo.entropy2 "0xABC")
                            (Demo.issued false))) "0xabc" Demo.n1 = true
  ↔ Demo.n1 = generate_nonce Demo.entropy2.
Proof.
  refine (proj1 (issue_invalidates_previous 8%Z Demo.entropy2 "0xABC"
                   (Demo.issued false) _) Demo.n1).
  discriminate.
Defined.

Lemma recorded_vote_spends_every_nonce_witness :
  unused_nonces (final (exec (cast_vote Demo.recover 7 Demo.vote1)
                             (Demo.issued false))) "0xabc" = [].
Proof.
  apply (recorded_vote_spends_every_nonce Demo.recover false
           [PostNonce 5 Demo.entropy1 "0xABC"] 7%Z Demo.vote1).
  vm_compute; reflexivity.
Defined.

Lemma nonce_records_only_age_witness :
  ∃ d', docs (serve_all Demo.recover [PostVote 7 Demo.vote1]
                        (Demo.issued false)) "nonce" !! 0 = Some d'
        ∧ d' !! "_id" = Sample.nonce0 !! "_id"
        ∧ d' !! "address" = Sample.nonce0 !! "address"
        ∧ d' !! "nonce" = Sample.nonce0 !! "nonce"
        ∧ (Sample.nonce0 !! "used" = Some (VBool true) →
           d' !! "used" = Some (VBool true)).
Proof.
  apply (nonce_records_only_age Demo.recover [PostVote 7 Demo.vote1]
                                (Demo.issued false) 0 Sample.nonce0).
  vm_compute; reflexivity.
Defined.

Lemma every_vote_burnt_a_nonce_witness :
  ∃ d, d ∈ docs Demo.voted "nonce"
       ∧ d !! "address" = Sample.vote0 !! "address"
       ∧ d !! "nonce" = Sample.vote0 !! "nonce"
       ∧ d !! "used" = Some (VBool true).
Proof.
  apply (every_vote_burnt_a_nonce Demo.recover false
           [PostNonce 5 Demo.entropy1 "0xABC"; PostVote 7 Demo.vote1]
           Sample.vote0).
  apply (bool_decide_unpack _). vm_compute. exact I.
Defined.

Lemma stored_records_are_normalised_witness :
  ∃ pid a sg n, Sample.vote0 !! "project_id" = Some (VStr pid)
                ∧ Sample.vote0 !! "address" = Some (VStr a) ∧ lower a = a
                ∧ Sample.vote0 !! "signature" = Some (VStr sg)
                ∧ Sample.vote0 !! "nonce" = Some (VStr n).
Proof.
  apply (proj2 (stored_records_are_normalised Demo.recover false
                  [PostNonce 5 Demo.entropy1 "0xABC"; PostVote 7 Demo.vote1])
               Sample.vote0).
  apply (bool_decide_unpack _). vm_compute. exact I.
Defined.

Lemma cast_vote_ignores_projects_witness :
  result (exec (cast_vote Demo.recover 7 (Demo.ballot "id7" "0xAbC" "0xAbC" Demo.n1))
               (Demo.issued false))
  = result (exec (cast_vote Demo.recover 7
                    (Demo.ballot "id7" "0xAbC" "0xAbC" Demo.n1))
                 (serve Demo.recover (Demo.issued false)
                        (PostProject Sample.dao))).
Proof.
  apply (cast_vote_ignores_projects Demo.recover 7%Z
           (Demo.ballot "id7" "0xAbC" "0xAbC" Demo.n1) (Demo.issued false)
           (serve Demo.recover (Demo.issued false) (PostProject Sample.dao)));
    vm_compute; reflexivity.
Defined.

Lemma issued_nonce_is_accepted_witness :
  result (exec (cast_vote Demo.recover 7 Demo.vote1)
               (final (exec (create_nonce 5 Demo.entropy1 "0xABC")
                            (Mongo.empty false))))
  = inr {[ "status" := VStr "ok";
           "message" := VStr (if has_voted (Mongo.empty false)
                                           (project_id Demo.vote1)
                                           (lower "0xABC")
                              then "Vote already recorded"
                              else "Vote recorded") ]}.
Proof.
  apply (issued_nonce_is_accepted Demo.recover 5%Z 7%Z Demo.entropy1 "0xABC"
                                  Demo.vote1 (Mongo.empty false));
    [discriminate | vm_compute; reflexivity..].
Defined.

(** The listing of the sample store: one project, [id0], with the one vote
    cast for it, which is also what [project_votes] reports. *)
Example list_projects_sample :
  list_projects Sample.py_str Sample.listed
  = inr [ {[ "id" := Stored (VStr "id0");
             "name" := Stored (VStr "dao");
             "description" := Stored (VStr "a dao");
             "website" := Stored VNull;
             "image" := Stored VNull;
             "chain" := Stored (VStr "Ethereum");
             "votes" := Count 1 ]} ]
  ∧ project_votes "id0" Sample.listed
    = {[ "project_id" := Stored (VStr "id0"); "votes" := Count 1 ]}.
Proof. split; vm_compute; reflexivity. Qed.
